(** * An arithmetic expression calculator: [Calc] and its four stages

    Shallow embedding of [src/calc.go]: validation, tokenization,
    infix-to-postfix conversion (shunting-yard) and postfix evaluation,
    followed by the properties of the pipeline.

    Conventions of the embedding.
    - A Go [string] is a [string] of the Standard Library, one [ascii] per
      byte.  [range] over a Go string yields runes; on a string of ASCII
      bytes the runes are the bytes, and every byte above 127 yields a rune
      above 127 (or U+FFFD), which no comparison of this program accepts.
      So the validator decides the same on bytes as on runes, and the
      three later stages only ever see ASCII text when reached from [Calc].
    - A Go slice used as a stack ([oper], [stack]) is a [list] whose head
      is the top of the stack (the last element of the slice).  A slice
      used as a queue ([tokens], [output]) is a [list] in slice order,
      [append] being [++ [x]].
    - A Go [(T, error)] result is a [result T]: [Ok v] for [(v, nil)] and
      [Err e] for [(zero, e)].
    - [float64] is IEEE-754 binary64 as specified by [SpecFloat]
      (precision 53, [emax] 1024, round to nearest even). *)

From Stdlib Require Import ZArith List String Ascii Bool Lia Permutation.
From Stdlib Require Import SpecFloat.
Import ListNotations.

Local Open Scope string_scope.
Local Open Scope list_scope.

(** ** Errors and results *)

(** The three sentinel errors of [calc.go], lines 9-13. *)
Inductive error : Type :=
  | ErrInvalidExpression
  | ErrMismatchedParentheses
  | ErrDivisionByZero.

Inductive result (A : Type) : Type :=
  | Ok (a : A)
  | Err (e : error).

Arguments Ok {A} a.
Arguments Err {A} e.

Definition bind {A B : Type} (r : result A) (k : A -> result B) : result B :=
  match r with
  | Ok a => k a
  | Err e => Err e
  end.

Notation "x <- r ;; k" := (bind r (fun x => k))
  (at level 61, r at next level, right associativity).

(** ** float64 *)

Definition float64 : Type := spec_float.

Module f64.
Definition prec : Z := 53.
Definition emax : Z := 1024.

Definition add (a b : float64) : float64 := SFadd prec emax a b.
Definition sub (a b : float64) : float64 := SFsub prec emax a b.
Definition mul (a b : float64) : float64 := SFmul prec emax a b.
Definition div (a b : float64) : float64 := SFdiv prec emax a b.

(** Go's [==] on float64: IEEE equality ([+0 == -0], NaN equal to nothing). *)
Definition eqb (a b : float64) : bool := SFeqb a b.

Definition zero : float64 := S754_zero false.

(** The float64 nearest to an integer. *)
Definition of_Z (z : Z) : float64 := binary_normalize prec emax z 0 false.

Definition is_zero (a : float64) : Prop := exists s, a = S754_zero s.
End f64.

(** ** The two packages of the Go library that [calc.go] imports *)

Module strings.

(** The ASCII part of [unicode.IsSpace]: tab, line feed, vertical tab,
    form feed, carriage return and space.  The other white space of
    Unicode is not ASCII, and a text that holds any is rejected by
    [isValidExpression] whatever [TrimSpace] makes of it. *)
Definition isSpace (c : ascii) : bool :=
  match nat_of_ascii c with
  | 9 | 10 | 11 | 12 | 13 | 32 => true
  | _ => false
  end.

Fixpoint TrimLeftSpace (s : string) : string :=
  match s with
  | EmptyString => EmptyString
  | String c rest => if isSpace c then TrimLeftSpace rest else s
  end.

Fixpoint TrimRightSpace (s : string) : string :=
  match s with
  | EmptyString => EmptyString
  | String c rest =>
      match TrimRightSpace rest with
      | EmptyString => if isSpace c then EmptyString else String c EmptyString
      | r => String c r
      end
  end.

(** Modelled from the spec: [strings.TrimSpace], code of the Go library and
    not of the repository, gives the text "after trimming leading/trailing
    whitespace". *)
Definition TrimSpace (s : string) : string :=
  TrimRightSpace (TrimLeftSpace s).

(** [strings.ContainsRune s r]: whether [r] occurs in [s]. *)
Fixpoint ContainsRune (s : string) (r : ascii) : bool :=
  match s with
  | EmptyString => false
  | String c rest => Ascii.eqb c r || ContainsRune rest r
  end.

End strings.

Module strconv.

Inductive NumError : Type := ErrSyntax | ErrRange.

Definition isDigit (c : ascii) : bool :=
  Ascii.leb "0" c && Ascii.leb c "9".

Definition digitVal (c : ascii) : Z := Z.of_nat (nat_of_ascii c) - 48.

(** What a scan of the mantissa has seen so far. *)
Record decimal : Type := {
  mant : Z;          (* the digits read, the point left out *)
  sawdigits : bool;  (* at least one digit *)
  sawdot : bool;     (* the point *)
  dp : nat           (* digits read after the point *)
}.

Definition decimal0 : decimal :=
  {| mant := 0; sawdigits := false; sawdot := false; dp := 0 |}.

(** The mantissa loop: digits and at most one point; anything else, a
    second point included, leaves text unread, a syntax error. *)
Fixpoint readDecimal (s : string) (d : decimal) : option decimal :=
  match s with
  | EmptyString => if sawdigits d then Some d else None
  | String c rest =>
      if Ascii.eqb c "." then
        if sawdot d then None
        else readDecimal rest
               {| mant := mant d; sawdigits := sawdigits d;
                  sawdot := true; dp := dp d |}
      else if isDigit c then
        readDecimal rest
          {| mant := 10 * mant d + digitVal c; sawdigits := true;
             sawdot := sawdot d;
             dp := if sawdot d then S (dp d) else dp d |}
      else None
  end.

(** The float64 nearest to [m / 10^k], ties to even. *)
Definition roundDecimal (m : Z) (k : nat) : float64 :=
  match m with
  | Zpos _ =>
      let '(q, e, l) :=
        SFdiv_core_binary f64.prec f64.emax m 0 (10 ^ Z.of_nat k) 0 in
      binary_round_aux f64.prec f64.emax false q e l
  | _ => f64.zero
  end.

(** Modelled from the spec: [strconv.ParseFloat(s, 64)], which [isNumber]
    and [evaluatePostfix] call, is code of the Go library and not of the
    repository.  The spec has a literal, a run over the digits and the
    point, "parsed as a floating-point literal"; the library documents the
    result: the nearest float64 under IEEE-754 unbiased rounding when [s]
    is well formed; a syntax error and 0 when it is not; a range error and
    an infinity when the value is more than half an ulp beyond the largest
    float64.  The model covers the strings over the digits and the point:
    one or more digits with at most one point.  Every other string is
    answered as a syntax error; that is Go's answer for the empty string
    and for the six operator and parenthesis tokens.  Signs, exponents,
    hexadecimal mantissas, underscores, [inf] and [nan], which Go's syntax
    also has, are left out: no token that [tokenize] makes of a text that
    passes the validator, or of a text over the spec's alphabet, holds
    them. *)
Definition ParseFloat (s : string) : float64 * option NumError :=
  match readDecimal s decimal0 with
  | None => (f64.zero, Some ErrSyntax)
  | Some d =>
      match roundDecimal (mant d) (dp d) with
      | S754_infinity sg => (S754_infinity sg, Some ErrRange)
      | f => (f, None)
      end
  end.

End strconv.

(** ** calc.go *)

(** Lines 32-39. *)
Fixpoint isValidExpression (expr : string) : bool :=
  match expr with
  | EmptyString => true
  | String char rest =>
      if negb (Ascii.leb "0" char && Ascii.leb char "9")
         && negb (strings.ContainsRune "+-*/() " char)
      then false
      else isValidExpression rest
  end.

(** The body of the loop of [tokenize], lines 45-58, on the pair of
    [tokens] and [currentToken]. *)
Definition tokenizeStep (st : list string * string) (char : ascii)
  : list string * string :=
  let '(tokens, currentToken) := st in
  if Ascii.eqb char " " then (tokens, currentToken)
  else if Ascii.eqb char "+" || Ascii.eqb char "-" || Ascii.eqb char "*"
          || Ascii.eqb char "/" || Ascii.eqb char "(" || Ascii.eqb char ")"
  then
    let '(tokens, currentToken) :=
      if (0 <? String.length currentToken)%nat
      then (tokens ++ [currentToken], EmptyString)
      else (tokens, currentToken) in
    (tokens ++ [String char EmptyString], currentToken)
  else (tokens, String.append currentToken (String char EmptyString)).

Fixpoint tokenizeLoop (expr : string) (st : list string * string)
  : list string * string :=
  match expr with
  | EmptyString => st
  | String char rest => tokenizeLoop rest (tokenizeStep st char)
  end.

(** Lines 41-65. *)
Definition tokenize (expr : string) : list string :=
  let '(tokens, currentToken) := tokenizeLoop expr ([], EmptyString) in
  if (0 <? String.length currentToken)%nat
  then tokens ++ [currentToken]
  else tokens.

(** Lines 149-154. *)
Definition isNumber (token : string) : bool :=
  match snd (strconv.ParseFloat token) with
  | None => true
  | Some _ => false
  end.

(** Lines 156-158. *)
Definition isOperator (token : string) : bool :=
  String.eqb token "+" || String.eqb token "-"
  || String.eqb token "*" || String.eqb token "/".

(** Lines 160-169. *)
Definition precedence (op : string) : Z :=
  if String.eqb op "+" || String.eqb op "-" then 1
  else if String.eqb op "*" || String.eqb op "/" then 2
  else 0.

(** The state of the converter: [output] in slice order, [oper] top first. *)
Definition convState : Type := (list string * list string)%type.

(** Lines 77-80: pop operators into the output down to a ["("]. *)
Fixpoint popToParen (output oper : list string) : convState :=
  match oper with
  | top :: rest =>
      if negb (String.eqb top "(")
      then popToParen (output ++ [top]) rest
      else (output, oper)
  | [] => (output, oper)
  end.

(** Lines 86-89: pop the operators that bind at least as tightly as [token]. *)
Fixpoint popHigher (token : string) (output oper : list string) : convState :=
  match oper with
  | top :: rest =>
      if (precedence top >=? precedence token)%Z
      then popHigher token (output ++ [top]) rest
      else (output, oper)
  | [] => (output, oper)
  end.

(** The body of the loop over the tokens, lines 72-93. *)
Definition convStep (st : convState) (token : string) : result convState :=
  let '(output, oper) := st in
  if isNumber token then Ok (output ++ [token], oper)
  else if String.eqb token "(" then Ok (output, token :: oper)
  else if String.eqb token ")" then
    let '(output, oper) := popToParen output oper in
    match oper with
    | [] => Err ErrMismatchedParentheses
    | _ :: oper => Ok (output, oper)
    end
  else if isOperator token then
    let '(output, oper) := popHigher token output oper in
    Ok (output, token :: oper)
  else Err ErrInvalidExpression.

Fixpoint convLoop (tokens : list string) (st : convState) : result convState :=
  match tokens with
  | [] => Ok st
  | token :: rest => st' <- convStep st token ;; convLoop rest st'
  end.

(** Lines 96-102: empty the operator stack into the output. *)
Fixpoint drain (output oper : list string) : result (list string) :=
  match oper with
  | [] => Ok output
  | top :: rest =>
      if String.eqb top "(" then Err ErrMismatchedParentheses
      else drain (output ++ [top]) rest
  end.

(** Lines 67-105. *)
Definition infixToPostfix (tokens : list string) : result (list string) :=
  st <- convLoop tokens ([], []) ;;
  drain (fst st) (snd st).

(** The body of the loop of [evaluatePostfix], lines 111-139, on the value
    stack (top first). *)
Definition evalStep (stack : list float64) (token : string)
  : result (list float64) :=
  if isNumber token then
    let num := fst (strconv.ParseFloat token) in
    Ok (num :: stack)
  else if isOperator token then
    match stack with
    | b :: a :: stack =>
        if String.eqb token "+" then Ok (f64.add a b :: stack)
        else if String.eqb token "-" then Ok (f64.sub a b :: stack)
        else if String.eqb token "*" then Ok (f64.mul a b :: stack)
        else if String.eqb token "/" then
          if f64.eqb b f64.zero then Err ErrDivisionByZero
          else Ok (f64.div a b :: stack)
        else Err ErrInvalidExpression
    | _ => Err ErrInvalidExpression
    end
  else Err ErrInvalidExpression.

Fixpoint evalLoop (postfix : list string) (stack : list float64)
  : result (list float64) :=
  match postfix with
  | [] => Ok stack
  | token :: rest => stack' <- evalStep stack token ;; evalLoop rest stack'
  end.

(** Lines 107-147. *)
Definition evaluatePostfix (postfix : list string) : result float64 :=
  stack <- evalLoop postfix [] ;;
  match stack with
  | [v] => Ok v
  | _ => Err ErrInvalidExpression
  end.

(** Lines 15-30. *)
Definition Calc (expression : string) : result float64 :=
  if String.eqb (strings.TrimSpace expression) "" then Err ErrInvalidExpression
  else if negb (isValidExpression expression) then Err ErrInvalidExpression
  else
    let tokens := tokenize expression in
    postfix <- infixToPostfix tokens ;;
    evaluatePostfix postfix.


(** ** Vocabulary of the properties: alphabets, spaces, well-formed expressions *)

(** Whether every character of a string satisfies [p]. *)
Fixpoint allChars (p : ascii -> bool) (s : string) : bool :=
  match s with
  | EmptyString => true
  | String c rest => p c && allChars p rest
  end.

(** The characters of a string. *)
Definition chars (s : string) : list ascii := list_ascii_of_string s.

(** The seventeen characters that the validator lets through. *)
Definition codeAlphabet : list ascii :=
  ["0"; "1"; "2"; "3"; "4"; "5"; "6"; "7"; "8"; "9";
   "+"; "-"; "*"; "/"; "("; ")"; " "]%char.

(** The alphabet the spec gives the validator: the same with the point. *)
Definition specAlphabet : list ascii := "."%char :: codeAlphabet.

(** The two guards of [Calc], lines 16-22, taken together. *)
Definition validationFails (expression : string) : bool :=
  String.eqb (strings.TrimSpace expression) ""
  || negb (isValidExpression expression).

(** The rest of [Calc], lines 24-29. *)
Definition afterValidation (expression : string) : result float64 :=
  postfix <- infixToPostfix (tokenize expression) ;;
  evaluatePostfix postfix.

(** A string without its spaces. *)
Fixpoint stripSpaces (s : string) : string :=
  match s with
  | EmptyString => EmptyString
  | String c rest =>
      if Ascii.eqb c " " then stripSpaces rest else String c (stripSpaces rest)
  end.

(** [n] spaces. *)
Fixpoint spaces (n : nat) : string :=
  match n with
  | O => EmptyString
  | S n => String " " (spaces n)
  end.

(** *** Expressions

    The syntax tree of an expression, as the usual grammar parses it:
    [Par] is a pair of parentheses of the text, [Bin] an operator between
    its two operands. *)
Inductive binop : Type := Add | Sub | Mul | Div.

Inductive expr : Type :=
  | Lit (lit : string)
  | Par (e : expr)
  | Bin (o : binop) (l r : expr).

Definition opToken (o : binop) : string :=
  match o with
  | Add => "+"
  | Sub => "-"
  | Mul => "*"
  | Div => "/"
  end.

(** How tightly an operator binds, and an expression at its root: a
    literal and a parenthesis are atoms. *)
Definition level (o : binop) : Z :=
  match o with
  | Add | Sub => 1
  | Mul | Div => 2
  end.

Definition binds (e : expr) : Z :=
  match e with
  | Lit _ | Par _ => 3
  | Bin o _ _ => level o
  end.

(** The tree is the parse of its own text: operators of one level group
    to the left, and a tighter operator is never above a looser one
    without parentheses.  So the left operand binds at least as tightly
    as the operator and the right operand strictly tighter. *)
Fixpoint wellFormed (literal : string -> bool) (e : expr) : bool :=
  match e with
  | Lit lit => literal lit
  | Par e => wellFormed literal e
  | Bin o l r =>
      (level o <=? binds l)%Z && (level o <? binds r)%Z
      && wellFormed literal l && wellFormed literal r
  end.

(** A literal of the code: a run of digits that fits a float64. *)
Definition integerLiteral (lit : string) : bool :=
  allChars strconv.isDigit lit && isNumber lit.

(** The text of an expression, without spaces. *)
Fixpoint render (e : expr) : string :=
  match e with
  | Lit lit => lit
  | Par e => String.append "(" (String.append (render e) ")")
  | Bin o l r => String.append (render l) (String.append (opToken o) (render r))
  end.

(** Its tokens. *)
Fixpoint tokens (e : expr) : list string :=
  match e with
  | Lit lit => [lit]
  | Par e => "(" :: tokens e ++ [")"]
  | Bin o l r => tokens l ++ opToken o :: tokens r
  end.

(** Its postfix form. *)
Fixpoint postfix (e : expr) : list string :=
  match e with
  | Lit lit => [lit]
  | Par e => postfix e
  | Bin o l r => postfix l ++ postfix r ++ [opToken o]
  end.

(** float64 arithmetic of one operator; Go's [==] decides the zero divisor. *)
Definition applyOp (o : binop) (a b : float64) : result float64 :=
  match o with
  | Add => Ok (f64.add a b)
  | Sub => Ok (f64.sub a b)
  | Mul => Ok (f64.mul a b)
  | Div => if f64.eqb b f64.zero then Err ErrDivisionByZero
           else Ok (f64.div a b)
  end.

(** The value of an expression: the left operand, then the right one,
    then the operator, in float64. *)
Fixpoint eval (e : expr) : result float64 :=
  match e with
  | Lit lit => Ok (fst (strconv.ParseFloat lit))
  | Par e => eval e
  | Bin o l r => a <- eval l ;; b <- eval r ;; applyOp o a b
  end.

(** *** What the two scanning stages hold back

    The tokenizer holds the literal that ends the text it has read in its
    buffer; the converter holds the operators whose right operand has been
    read to its end on its stack. *)

(** The tokens emitted after the text of [e], and the buffer then. *)
Fixpoint emitted (e : expr) : list string :=
  match e with
  | Lit _ => []
  | Par e => "(" :: tokens e ++ [")"]
  | Bin o l r => tokens l ++ opToken o :: emitted r
  end.

Fixpoint buffered (e : expr) : string :=
  match e with
  | Lit lit => lit
  | Par _ => EmptyString
  | Bin _ _ r => buffered r
  end.

(** The output after the tokens of [e], and the operators stacked then,
    top first. *)
Fixpoint output (e : expr) : list string :=
  match e with
  | Lit lit => [lit]
  | Par e => postfix e
  | Bin _ l r => postfix l ++ output r
  end.

Fixpoint stacked (e : expr) : list string :=
  match e with
  | Lit _ | Par _ => []
  | Bin o _ r => stacked r ++ [opToken o]
  end.

(** The top of the operator stack binds less tightly than [p]. *)
Definition lowTop (p : Z) (oper : list string) : Prop :=
  match oper with
  | [] => True
  | top :: _ => (precedence top < p)%Z
  end.

(** Whether a token is one of the two parentheses or the four operators. *)
Definition isSymbol (token : string) : bool :=
  String.eqb token "(" || String.eqb token ")" || isOperator token.

(** The test of line 34 on one character, the negations pushed inside. *)
Definition validChar (c : ascii) : bool :=
  (Ascii.leb "0" c && Ascii.leb c "9") || strings.ContainsRune "+-*/() " c.

(** The six characters that are a token each, line 49. *)
Definition symbolChar (c : ascii) : bool :=
  Ascii.eqb c "+" || Ascii.eqb c "-" || Ascii.eqb c "*"
  || Ascii.eqb c "/" || Ascii.eqb c "(" || Ascii.eqb c ")".

(** The buffer of the tokenizer as tokens: nothing when it is empty. *)
Definition flush (currentToken : string) : list string :=
  if (0 <? String.length currentToken)%nat then [currentToken] else [].

Ltac ascii_cases c :=
  destruct c as [[] [] [] [] [] [] [] []]; try reflexivity; try discriminate.

(** A character that is neither a space nor a token of its own: it goes
    to the buffer of the tokenizer. *)
Definition literalChar (c : ascii) : bool :=
  negb (Ascii.eqb c " ") && negb (symbolChar c).

Definition notSpace (c : ascii) : bool := negb (Ascii.eqb c " ").


(** A literal of the spec: a non-negative decimal, that is digits with at
    most one point among them, of any length. *)
Definition decimalLiteral (lit : string) : bool :=
  match strconv.readDecimal lit strconv.decimal0 with
  | Some _ => true
  | None => false
  end.

(** [n] zeros. *)
Fixpoint zeros (n : nat) : string :=
  match n with
  | O => EmptyString
  | S n => String "0" (zeros n)
  end.

(** ** main.go *)

(** The two structs of the wire format, lines 10-17.  A nil pointer field
    is [None]. *)
Record Request : Type := { Expression : string }.

Record Response : Type := {
  Result : option float64;
  Error : option string
}.

(** What the handler reads of [*http.Request]: the method and the bytes
    of the body. *)
Record httpRequest : Type := { Method : string; Body : string }.

(** What the handler does to its [http.ResponseWriter].  It has two ways
    to reply: [http.Error(w, msg, code)], or the three calls that set the
    content type to [application/json], write the status code and encode
    a [Response]. *)
Inductive reply : Type :=
  | httpError (msg : string) (code : nat)
  | jsonReply (code : nat) (response : Response).

Module http.
Definition MethodPost : string := "POST".
Definition StatusOK : nat := 200.
Definition StatusBadRequest : nat := 400.
Definition StatusMethodNotAllowed : nat := 405.
Definition StatusUnprocessableEntity : nat := 422.
Definition StatusInternalServerError : nat := 500.
End http.

(** The body of the reply to a request that is not JSON, line 27:
    [{"error":"Invalid JSON"}], the double quote being character 34. *)
Definition invalidJSON : string :=
  String.concat (String "034" EmptyString)
    ["{"; "error"; ":"; "Invalid JSON"; "}"].

(** Lines 19-56.  [Decode] stands for [json.NewDecoder(r.Body).Decode],
    code of the Go library: the request it reads from the body, or
    [None] when it returns an error.  [errors.Is] on the sentinel errors
    is equality. *)
Definition handleCalculate (Decode : string -> option Request)
    (r : httpRequest) : reply :=
  if negb (String.eqb (Method r) http.MethodPost) then
    httpError "Method Not Allowed" http.StatusMethodNotAllowed
  else
    match Decode (Body r) with
    | None => httpError invalidJSON http.StatusBadRequest
    | Some req =>
        match Calc (Expression req) with
        | Err err =>
            match err with
            | ErrInvalidExpression | ErrMismatchedParentheses =>
                jsonReply http.StatusUnprocessableEntity
                  {| Result := None; Error := Some "Expression is not valid" |}
            | _ =>
                jsonReply http.StatusInternalServerError
                  {| Result := None; Error := Some "Internal server error" |}
            end
        | Ok result =>
            jsonReply http.StatusOK {| Result := Some result; Error := None |}
        end
    end.

(** The status code of a reply. *)
Definition statusCode (w : reply) : nat :=
  match w with
  | httpError _ code => code
  | jsonReply code _ => code
  end.

(** ** Vocabulary of the further properties *)

(** The tokens of a list put end to end. *)
Fixpoint joinTokens (toks : list string) : string :=
  match toks with
  | [] => EmptyString
  | t :: rest => String.append t (joinTokens rest)
  end.

(** A token that is one symbol character. *)
Definition symbolToken (t : string) : bool :=
  match t with
  | String c EmptyString => symbolChar c
  | _ => false
  end.

(** A token that is a run of characters of a literal, not empty. *)
Definition literalToken (t : string) : bool :=
  (0 <? String.length t)%nat && allChars literalChar t.

(** A token the converter knows: a number, a parenthesis or an operator. *)
Definition knownToken (t : string) : bool := isNumber t || isSymbol t.

Definition notParen (t : string) : bool :=
  negb (String.eqb t "(") && negb (String.eqb t ")").

(** The nesting depth after a list of tokens, from a given depth; [None]
    when a [")"] comes at depth 0. *)
Fixpoint parenScan (depth : nat) (toks : list string) : option nat :=
  match toks with
  | [] => Some depth
  | t :: rest =>
      if String.eqb t "(" then parenScan (S depth) rest
      else if String.eqb t ")" then
        match depth with
        | O => None
        | S d => parenScan d rest
        end
      else parenScan depth rest
  end.

(** How many elements of a list satisfy [p]. *)
Definition count {A : Type} (p : A -> bool) (l : list A) : nat :=
  List.length (filter p l).

(** What lies on the operator stack: a left parenthesis or an operator. *)
Definition stackEntry (t : string) : bool :=
  String.eqb t "(" || isOperator t.

(** What one step of the converter does, case by case. *)
Inductive convStepSpec (out oper : list string) (t : string)
  : result convState -> Prop :=
  | stepNumber :
      isNumber t = true ->
      convStepSpec out oper t (Ok (out ++ [t], oper))
  | stepLeft :
      t = "(" ->
      convStepSpec out oper t (Ok (out, "(" :: oper))
  | stepRight (pend rest : list string) :
      t = ")" -> oper = pend ++ "(" :: rest ->
      Forall (fun x => String.eqb x "(" = false) pend ->
      convStepSpec out oper t (Ok (out ++ pend, rest))
  | stepRightFails :
      t = ")" -> ~ In "(" oper ->
      convStepSpec out oper t (Err ErrMismatchedParentheses)
  | stepOperator (pend rest : list string) :
      isOperator t = true -> oper = pend ++ rest ->
      Forall (fun x => String.eqb x "(" = false) pend ->
      convStepSpec out oper t (Ok (out ++ pend, t :: rest))
  | stepUnknown :
      knownToken t = false ->
      convStepSpec out oper t (Err ErrInvalidExpression).

(** * Properties *)

(** ** Results *)

Lemma bind_Ok {A B : Type} (r : result A) (k : A -> result B) (b : B) :
  bind r k = Ok b -> exists a, r = Ok a /\ k a = Ok b.
Proof.
  destruct r as [a | e]; simpl; intro H; [exists a; auto | discriminate].
Qed.

Lemma bind_Err {A B : Type} (r : result A) (k : A -> result B) (e : error) :
  bind r k = Err e <-> r = Err e \/ exists a, r = Ok a /\ k a = Err e.
Proof.
  destruct r as [a | e']; simpl; split.
  - intro H; right; exists a; auto.
  - intros [H | [a' [H1 H2]]]; [discriminate | congruence].
  - intro H; left; congruence.
  - intros [H | [a' [H1 H2]]]; [congruence | discriminate].
Qed.

(** ** Characters and strings *)

Lemma validChar_codeAlphabet (c : ascii) :
  validChar c = existsb (Ascii.eqb c) codeAlphabet.
Proof. ascii_cases c. Qed.

Lemma validChar_In (c : ascii) : validChar c = true <-> In c codeAlphabet.
Proof.
  rewrite validChar_codeAlphabet, existsb_exists; split.
  - intros [x [Hin Heq]]. apply Ascii.eqb_eq in Heq. subst x. exact Hin.
  - intro Hin. exists c. split; [exact Hin | apply Ascii.eqb_refl].
Qed.

Lemma isValidExpression_allChars (s : string) :
  isValidExpression s = allChars validChar s.
Proof.
  induction s as [| c s IH]; [reflexivity |].
  cbn [isValidExpression allChars]. rewrite IH. unfold validChar.
  destruct (Ascii.leb "0" c && Ascii.leb c "9");
    destruct (strings.ContainsRune "+-*/() " c); reflexivity.
Qed.

Lemma allChars_forall (p : ascii -> bool) (s : string) :
  allChars p s = true <-> forall c, In c (chars s) -> p c = true.
Proof.
  unfold chars. induction s as [| c s IH]; simpl.
  - split; [intros _ c [] | reflexivity].
  - rewrite andb_true_iff, IH. split.
    + intros [Hc Hs] x [<- | Hx]; auto.
    + intro H. split; [apply H; left; reflexivity | intros x Hx; apply H; right; exact Hx].
Qed.

Lemma allChars_false_exists (p : ascii -> bool) (s : string) :
  allChars p s = false <-> exists c, In c (chars s) /\ p c = false.
Proof.
  unfold chars. induction s as [| c s IH]; simpl.
  - split; [discriminate | intros [c [[] _]]].
  - rewrite andb_false_iff, IH. split.
    + intros [Hc | [x [Hx Hp]]]; [exists c; auto | exists x; auto].
    + intros [x [[<- | Hx] Hp]]; [left; exact Hp | right; exists x; auto].
Qed.

Lemma allChars_append (p : ascii -> bool) (s t : string) :
  allChars p (String.append s t) = allChars p s && allChars p t.
Proof.
  induction s as [| c s IH]; simpl; [reflexivity |].
  rewrite IH, andb_assoc. reflexivity.
Qed.

Lemma allChars_impl (p q : ascii -> bool) (s : string) :
  (forall c, p c = true -> q c = true) ->
  allChars p s = true -> allChars q s = true.
Proof.
  intro Hpq. induction s as [| c s IH]; simpl; [reflexivity |].
  rewrite !andb_true_iff. intros [Hc Hs]. auto.
Qed.

Lemma append_nil_r (s : string) : String.append s EmptyString = s.
Proof. induction s as [| c s IH]; simpl; [| rewrite IH]; reflexivity. Qed.

Lemma append_assoc (s t u : string) :
  String.append (String.append s t) u = String.append s (String.append t u).
Proof. induction s as [| c s IH]; simpl; [| rewrite IH]; reflexivity. Qed.

Lemma length_pos_nonempty (s : string) :
  (0 <? String.length s)%nat = negb (String.eqb s EmptyString).
Proof. destruct s; reflexivity. Qed.

(** ** Trimming *)

Lemma TrimRightSpace_empty (s : string) :
  strings.TrimRightSpace s = EmptyString <-> allChars strings.isSpace s = true.
Proof.
  induction s as [| c s IH]; simpl; [tauto |].
  destruct (strings.TrimRightSpace s) as [| c' r].
  - destruct (strings.isSpace c); simpl.
    + rewrite <- IH. tauto.
    + split; discriminate.
  - split; [discriminate |].
    rewrite andb_true_iff. intros [_ H]. apply IH in H. discriminate.
Qed.

Lemma TrimLeftSpace_allSpace (s : string) :
  allChars strings.isSpace (strings.TrimLeftSpace s) = allChars strings.isSpace s.
Proof.
  induction s as [| c s IH]; simpl; [reflexivity |].
  destruct (strings.isSpace c) eqn:Hc; simpl; [exact IH | rewrite Hc; reflexivity].
Qed.

(** The trimmed text is empty exactly when the text is all white space. *)
Lemma TrimSpace_empty (s : string) :
  strings.TrimSpace s = EmptyString <-> allChars strings.isSpace s = true.
Proof.
  unfold strings.TrimSpace.
  rewrite TrimRightSpace_empty, TrimLeftSpace_allSpace. tauto.
Qed.

Lemma valid_space_is_blank (c : ascii) :
  validChar c = true -> strings.isSpace c = true -> c = " "%char.
Proof. ascii_cases c. Qed.

(** On a text that the validator accepts, the only white space is the space. *)
Lemma valid_allSpace_stripSpaces (s : string) :
  isValidExpression s = true ->
  (allChars strings.isSpace s = true <-> stripSpaces s = EmptyString).
Proof.
  rewrite isValidExpression_allChars.
  induction s as [| c s IH]; [simpl; tauto |].
  cbn [allChars stripSpaces].
  rewrite andb_true_iff. intros [Hc Hs]. specialize (IH Hs).
  destruct (Ascii.eqb c " ") eqn:E.
  - apply Ascii.eqb_eq in E. subst c. exact IH.
  - split; [| discriminate].
    rewrite andb_true_iff. intros [Hsp _].
    apply (valid_space_is_blank c Hc) in Hsp. subst c. discriminate.
Qed.

(** ** Spaces *)

Lemma stripSpaces_append (s t : string) :
  stripSpaces (String.append s t) = String.append (stripSpaces s) (stripSpaces t).
Proof.
  induction s as [| c s IH]; [reflexivity |].
  cbn [String.append stripSpaces]. rewrite IH.
  destruct (Ascii.eqb c " "); reflexivity.
Qed.

Lemma stripSpaces_spaces (n : nat) : stripSpaces (spaces n) = EmptyString.
Proof. induction n as [| n IH]; [reflexivity | exact IH]. Qed.

Lemma stripSpaces_notSpace (s : string) :
  allChars notSpace s = true -> stripSpaces s = s.
Proof.
  induction s as [| c s IH]; [reflexivity |].
  cbn [allChars stripSpaces]. unfold notSpace at 1.
  rewrite andb_true_iff. intros [Hc Hs].
  destruct (Ascii.eqb c " "); [discriminate | rewrite (IH Hs); reflexivity].
Qed.

Lemma stripSpaces_allChars (s : string) : allChars notSpace (stripSpaces s) = true.
Proof.
  induction s as [| c s IH]; [reflexivity |].
  cbn [stripSpaces]. destruct (Ascii.eqb c " ") eqn:E; [exact IH |].
  cbn [allChars]. unfold notSpace at 1. rewrite E, IH. reflexivity.
Qed.

Lemma stripSpaces_idem (s : string) : stripSpaces (stripSpaces s) = stripSpaces s.
Proof. apply stripSpaces_notSpace, stripSpaces_allChars. Qed.

Lemma isValidExpression_stripSpaces (s : string) :
  isValidExpression (stripSpaces s) = isValidExpression s.
Proof.
  rewrite !isValidExpression_allChars.
  induction s as [| c s IH]; [reflexivity |].
  cbn [stripSpaces allChars]. destruct (Ascii.eqb c " ") eqn:E.
  - apply Ascii.eqb_eq in E. subst c. exact IH.
  - cbn [allChars]. rewrite IH. reflexivity.
Qed.

Lemma tokenizeStep_space (st : list string * string) :
  tokenizeStep st " " = st.
Proof. destruct st as [toks cur]. reflexivity. Qed.

Lemma tokenizeLoop_stripSpaces (s : string) (st : list string * string) :
  tokenizeLoop (stripSpaces s) st = tokenizeLoop s st.
Proof.
  revert st. induction s as [| c s IH]; intro st; [reflexivity |].
  cbn [stripSpaces tokenizeLoop]. destruct (Ascii.eqb c " ") eqn:E.
  - apply Ascii.eqb_eq in E. subst c. rewrite tokenizeStep_space. apply IH.
  - cbn [tokenizeLoop]. apply IH.
Qed.

Lemma tokenize_stripSpaces (s : string) : tokenize (stripSpaces s) = tokenize s.
Proof. unfold tokenize. rewrite tokenizeLoop_stripSpaces. reflexivity. Qed.

Lemma blank_test_stripSpaces (s : string) :
  isValidExpression s = true ->
  String.eqb (strings.TrimSpace s) "" = String.eqb (stripSpaces s) "".
Proof.
  intro Hv.
  destruct (String.eqb (stripSpaces s) "") eqn:E.
  - apply String.eqb_eq in E. apply String.eqb_eq, TrimSpace_empty.
    apply (valid_allSpace_stripSpaces s Hv). exact E.
  - apply String.eqb_neq in E. apply String.eqb_neq. intro H. apply E.
    apply (valid_allSpace_stripSpaces s Hv), TrimSpace_empty. exact H.
Qed.

Lemma validationFails_stripSpaces (s : string) :
  validationFails (stripSpaces s) = validationFails s.
Proof.
  unfold validationFails.
  destruct (isValidExpression s) eqn:Hv.
  - rewrite isValidExpression_stripSpaces, Hv.
    rewrite (blank_test_stripSpaces s Hv).
    rewrite blank_test_stripSpaces
      by (rewrite isValidExpression_stripSpaces; exact Hv).
    rewrite stripSpaces_idem. reflexivity.
  - rewrite isValidExpression_stripSpaces, Hv. cbn [negb].
    rewrite !orb_true_r. reflexivity.
Qed.

(** [Calc] is its two guards followed by the three later stages. *)
Lemma Calc_stages (s : string) :
  Calc s = if validationFails s then Err ErrInvalidExpression
           else afterValidation s.
Proof.
  unfold Calc, validationFails, afterValidation.
  destruct (String.eqb (strings.TrimSpace s) ""); [reflexivity |].
  destruct (isValidExpression s); reflexivity.
Qed.


(** ** The tokenizer on a literal *)

Lemma tokenizeStep_literalChar (toks : list string) (cur : string) (c : ascii) :
  literalChar c = true ->
  tokenizeStep (toks, cur) c = (toks, String.append cur (String c EmptyString)).
Proof.
  unfold literalChar, symbolChar, tokenizeStep.
  rewrite andb_true_iff, !negb_true_iff. intros [-> ->]. reflexivity.
Qed.

Lemma tokenizeStep_symbolChar (toks : list string) (cur : string) (c : ascii) :
  symbolChar c = true ->
  tokenizeStep (toks, cur) c = (toks ++ flush cur ++ [String c EmptyString], EmptyString).
Proof.
  intro Hc. unfold tokenizeStep, flush.
  replace (Ascii.eqb c " ") with false by (revert Hc; ascii_cases c).
  unfold symbolChar in Hc. rewrite Hc.
  destruct (0 <? String.length cur)%nat eqn:E.
  - rewrite <- app_assoc. reflexivity.
  - rewrite length_pos_nonempty in E. apply negb_false_iff, String.eqb_eq in E.
    subst cur. reflexivity.
Qed.

Lemma tokenizeLoop_literal (lit : string) (toks : list string) (cur : string) :
  allChars literalChar lit = true ->
  tokenizeLoop lit (toks, cur) = (toks, String.append cur lit).
Proof.
  revert cur. induction lit as [| c lit IH]; intros cur H.
  - cbn [tokenizeLoop]. rewrite append_nil_r. reflexivity.
  - cbn [allChars] in H. apply andb_true_iff in H. destruct H as [Hc Hl].
    cbn [tokenizeLoop]. rewrite (tokenizeStep_literalChar _ _ _ Hc), (IH _ Hl).
    rewrite append_assoc. reflexivity.
Qed.

Lemma tokenizeLoop_append (s t : string) (st : list string * string) :
  tokenizeLoop (String.append s t) st = tokenizeLoop t (tokenizeLoop s st).
Proof.
  revert st. induction s as [| c s IH]; intro st; [reflexivity |].
  cbn [String.append tokenizeLoop]. apply IH.
Qed.

Lemma tokenize_literal (lit : string) :
  allChars literalChar lit = true -> tokenize lit = flush lit.
Proof.
  intro H. unfold tokenize. rewrite (tokenizeLoop_literal _ _ _ H). reflexivity.
Qed.

Lemma isDigit_literalChar (c : ascii) :
  strconv.isDigit c = true -> literalChar c = true.
Proof. ascii_cases c. Qed.

Lemma isDigit_notSpace (c : ascii) :
  strconv.isDigit c = true -> notSpace c = true.
Proof. ascii_cases c. Qed.

Lemma isDigit_validChar (c : ascii) :
  strconv.isDigit c = true -> validChar c = true.
Proof. ascii_cases c. Qed.

(** ** Literals and operator tokens *)

Lemma integerLiteral_digits (lit : string) :
  integerLiteral lit = true -> allChars strconv.isDigit lit = true.
Proof. unfold integerLiteral. rewrite andb_true_iff. tauto. Qed.

Lemma integerLiteral_isNumber (lit : string) :
  integerLiteral lit = true -> isNumber lit = true.
Proof. unfold integerLiteral. rewrite andb_true_iff. tauto. Qed.

Lemma isNumber_nonempty (lit : string) :
  isNumber lit = true -> (0 <? String.length lit)%nat = true.
Proof. destruct lit; [discriminate | reflexivity]. Qed.

Lemma integerLiteral_flush (lit : string) :
  integerLiteral lit = true -> flush lit = [lit].
Proof.
  intro H. unfold flush.
  rewrite (isNumber_nonempty _ (integerLiteral_isNumber _ H)). reflexivity.
Qed.

Lemma precedence_opToken (o : binop) : precedence (opToken o) = level o.
Proof. destruct o; reflexivity. Qed.

Lemma isNumber_opToken (o : binop) : isNumber (opToken o) = false.
Proof. destruct o; reflexivity. Qed.

Lemma isOperator_opToken (o : binop) : isOperator (opToken o) = true.
Proof. destruct o; reflexivity. Qed.

Lemma isOperator_inv (token : string) :
  isOperator token = true -> exists o, token = opToken o.
Proof.
  unfold isOperator. rewrite !orb_true_iff, !String.eqb_eq.
  intros [[[-> | ->] | ->] | ->];
    [exists Add | exists Sub | exists Mul | exists Div]; reflexivity.
Qed.

Lemma binds_pos (e : expr) : (1 <= binds e)%Z.
Proof. destruct e as [lit | e | [] l r]; simpl; lia. Qed.

Lemma wellFormed_impl (p q : string -> bool) (e : expr) :
  (forall lit, p lit = true -> q lit = true) ->
  wellFormed p e = true -> wellFormed q e = true.
Proof.
  intro Hpq. induction e as [lit | e IH | o l IHl r IHr]; cbn [wellFormed].
  - apply Hpq.
  - exact IH.
  - rewrite !andb_true_iff. intros [[[H1 H2] H3] H4]. auto.
Qed.

Lemma wellFormed_isNumber (e : expr) :
  wellFormed integerLiteral e = true -> wellFormed isNumber e = true.
Proof. apply wellFormed_impl, integerLiteral_isNumber. Qed.

(** ** The tokenizer on the text of an expression *)

Lemma emitted_buffered (e : expr) :
  wellFormed integerLiteral e = true ->
  emitted e ++ flush (buffered e) = tokens e.
Proof.
  induction e as [lit | e IH | o l IHl r IHr]; cbn [wellFormed]; intro H.
  - cbn [emitted buffered tokens]. rewrite (integerLiteral_flush _ H). reflexivity.
  - cbn [emitted buffered tokens]. apply app_nil_r.
  - rewrite !andb_true_iff in H. destruct H as [[_ Hl] Hr].
    cbn [emitted buffered tokens]. rewrite <- (IHr Hr), <- app_assoc. reflexivity.
Qed.

Lemma tokenizeLoop_render (e : expr) :
  wellFormed integerLiteral e = true ->
  forall toks, tokenizeLoop (render e) (toks, EmptyString)
               = (toks ++ emitted e, buffered e).
Proof.
  induction e as [lit | e IH | o l IHl r IHr]; cbn [wellFormed]; intros H toks.
  - cbn [render emitted buffered].
    rewrite tokenizeLoop_literal, app_nil_r; [reflexivity |].
    apply (allChars_impl strconv.isDigit); [exact isDigit_literalChar |].
    apply integerLiteral_digits, H.
  - cbn [render emitted buffered String.append tokenizeLoop].
    rewrite tokenizeStep_symbolChar by reflexivity.
    rewrite tokenizeLoop_append, IH by exact H.
    cbn [tokenizeLoop]. rewrite tokenizeStep_symbolChar by reflexivity.
    rewrite <- (emitted_buffered e H).
    cbn [flush String.length Nat.ltb Nat.leb app]. rewrite <- !app_assoc. reflexivity.
  - rewrite !andb_true_iff in H. destruct H as [[_ Hl] Hr].
    cbn [render emitted buffered].
    rewrite tokenizeLoop_append, IHl by exact Hl.
    rewrite tokenizeLoop_append.
    replace (tokenizeLoop (opToken o) (toks ++ emitted l, buffered l))
      with (toks ++ tokens l ++ [opToken o], EmptyString).
    + rewrite IHr by exact Hr. rewrite <- !app_assoc. reflexivity.
    + rewrite <- (emitted_buffered l Hl).
      destruct o; cbn [opToken tokenizeLoop];
        rewrite tokenizeStep_symbolChar by reflexivity;
        rewrite <- !app_assoc; reflexivity.
Qed.

Lemma tokenize_render (e : expr) :
  wellFormed integerLiteral e = true -> tokenize (render e) = tokens e.
Proof.
  intro H. unfold tokenize. rewrite (tokenizeLoop_render e H).
  cbn [app]. rewrite <- (emitted_buffered e H). unfold flush.
  destruct (0 <? String.length (buffered e))%nat;
    [reflexivity | symmetry; apply app_nil_r].
Qed.

(** ** The converter on the tokens of an expression *)

Lemma convLoop_app (a b : list string) (st : convState) :
  convLoop (a ++ b) st = (st' <- convLoop a st ;; convLoop b st').
Proof.
  revert st. induction a as [| t a IH]; intro st; [reflexivity |].
  cbn [app convLoop]. destruct (convStep st t) as [st' | err]; [apply IH | reflexivity].
Qed.

Lemma convStep_number (out oper : list string) (token : string) :
  isNumber token = true -> convStep (out, oper) token = Ok (out ++ [token], oper).
Proof. intro H. unfold convStep. rewrite H. reflexivity. Qed.

Lemma convStep_leftParen (out oper : list string) :
  convStep (out, oper) "(" = Ok (out, "(" :: oper).
Proof. reflexivity. Qed.

Lemma convStep_rightParen (out oper : list string) :
  convStep (out, oper) ")"
  = match snd (popToParen out oper) with
    | [] => Err ErrMismatchedParentheses
    | _ :: rest => Ok (fst (popToParen out oper), rest)
    end.
Proof.
  unfold convStep. change (isNumber ")") with false.
  change (String.eqb ")" "(") with false. change (String.eqb ")" ")") with true.
  cbv iota. destruct (popToParen out oper) as [out' oper']. reflexivity.
Qed.

Lemma convStep_operator (out oper : list string) (o : binop) :
  convStep (out, oper) (opToken o)
  = Ok (fst (popHigher (opToken o) out oper),
        opToken o :: snd (popHigher (opToken o) out oper)).
Proof.
  unfold convStep. rewrite isNumber_opToken, isOperator_opToken.
  replace (String.eqb (opToken o) "(") with false by (destruct o; reflexivity).
  replace (String.eqb (opToken o) ")") with false by (destruct o; reflexivity).
  destruct (popHigher (opToken o) out oper) as [out' oper']. reflexivity.
Qed.

Lemma popHigher_stacked (token : string) (pend : list string) :
  Forall (fun t => (precedence token <= precedence t)%Z) pend ->
  forall out oper, lowTop (precedence token) oper ->
  popHigher token out (pend ++ oper) = (out ++ pend, oper).
Proof.
  induction pend as [| t pend IH]; intros Hp out oper Hlow.
  - cbn [app]. rewrite app_nil_r. destruct oper as [| top rest]; [reflexivity |].
    cbn [popHigher]. unfold lowTop in Hlow.
    destruct (Z.geb_spec (precedence top) (precedence token)); [lia | reflexivity].
  - inversion Hp as [| ? ? Ht Hrest]; subst. cbn [app popHigher].
    destruct (Z.geb_spec (precedence t) (precedence token)); [| lia].
    rewrite (IH Hrest _ _ Hlow), <- app_assoc. reflexivity.
Qed.

Lemma popToParen_stacked (pend : list string) :
  Forall (fun t => String.eqb t "(" = false) pend ->
  forall out oper,
  popToParen out (pend ++ "(" :: oper) = (out ++ pend, "(" :: oper).
Proof.
  induction pend as [| t pend IH]; intros Hp out oper.
  - cbn [app]. rewrite app_nil_r. reflexivity.
  - inversion Hp as [| ? ? Ht Hrest]; subst. cbn [app popToParen].
    rewrite Ht. cbn [negb]. rewrite (IH Hrest), <- app_assoc. reflexivity.
Qed.

Lemma drain_stacked (pend : list string) :
  Forall (fun t => String.eqb t "(" = false) pend ->
  forall out, drain out pend = Ok (out ++ pend).
Proof.
  induction pend as [| t pend IH]; intros Hp out.
  - cbn [drain]. rewrite app_nil_r. reflexivity.
  - inversion Hp as [| ? ? Ht Hrest]; subst. cbn [drain].
    rewrite Ht, (IH Hrest), <- app_assoc. reflexivity.
Qed.

(** The operators held back bind at least as tightly as the expression. *)
Lemma stacked_binds (e : expr) :
  wellFormed isNumber e = true ->
  Forall (fun t => (binds e <= precedence t)%Z) (stacked e).
Proof.
  induction e as [lit | e IH | o l IHl r IHr]; cbn [wellFormed stacked]; intro H.
  - constructor.
  - constructor.
  - rewrite !andb_true_iff in H. destruct H as [[[_ Hlt] _] Hr].
    apply Z.ltb_lt in Hlt. apply Forall_app. split.
    + eapply Forall_impl; [| exact (IHr Hr)]. cbn [binds]. intros t Ht. lia.
    + constructor; [| constructor]. cbn [binds]. rewrite precedence_opToken. lia.
Qed.

Lemma stacked_no_paren (e : expr) :
  wellFormed isNumber e = true ->
  Forall (fun t => String.eqb t "(" = false) (stacked e).
Proof.
  intro H. eapply Forall_impl; [| exact (stacked_binds e H)].
  intros t Ht. destruct (String.eqb t "(") eqn:E; [| reflexivity].
  apply String.eqb_eq in E. subst t. pose proof (binds_pos e).
  change (precedence "(") with 0%Z in Ht. lia.
Qed.

Lemma output_stacked (e : expr) : output e ++ stacked e = postfix e.
Proof.
  induction e as [lit | e IH | o l IHl r IHr]; cbn [output stacked postfix].
  - reflexivity.
  - apply app_nil_r.
  - rewrite <- IHr, <- !app_assoc. reflexivity.
Qed.

Lemma lowTop_mono (p q : Z) (oper : list string) :
  (p <= q)%Z -> lowTop p oper -> lowTop q oper.
Proof. destruct oper as [| top rest]; simpl; [trivial | lia]. Qed.

(** The shunting-yard invariant: from a stack whose top binds less tightly
    than the expression, its tokens leave [output] appended to the output
    and [stacked] pushed on the stack. *)
Lemma convLoop_tokens (e : expr) :
  wellFormed isNumber e = true ->
  forall out oper, lowTop (binds e) oper ->
  convLoop (tokens e) (out, oper) = Ok (out ++ output e, stacked e ++ oper).
Proof.
  induction e as [lit | e IH | o l IHl r IHr]; cbn [wellFormed];
    intros H out oper Hlow.
  - cbn [tokens convLoop output stacked app].
    rewrite convStep_number by exact H. reflexivity.
  - cbn [tokens convLoop output stacked app].
    rewrite convStep_leftParen. cbn [bind].
    rewrite convLoop_app, (IH H).
    2:{ cbn [lowTop]. change (precedence "(") with 0%Z. pose proof (binds_pos e). lia. }
    cbn [bind convLoop]. rewrite convStep_rightParen.
    rewrite (popToParen_stacked _ (stacked_no_paren e H)). cbn [fst snd bind].
    rewrite <- app_assoc, output_stacked. reflexivity.
  - rewrite !andb_true_iff in H. destruct H as [[[Hle Hlt] Hl] Hr].
    apply Z.leb_le in Hle. apply Z.ltb_lt in Hlt. cbn [binds] in Hlow.
    cbn [tokens output stacked].
    rewrite convLoop_app, (IHl Hl) by (apply (lowTop_mono (level o)); assumption).
    cbn [bind convLoop]. rewrite convStep_operator.
    rewrite popHigher_stacked.
    + cbn [fst snd bind]. rewrite (IHr Hr).
      * rewrite <- !app_assoc, (app_assoc (output l)), output_stacked. reflexivity.
      * cbn [lowTop]. rewrite precedence_opToken. exact Hlt.
    + eapply Forall_impl; [| exact (stacked_binds l Hl)].
      intros t Ht. cbn beta in *. rewrite precedence_opToken. lia.
    + rewrite precedence_opToken. exact Hlow.
Qed.

(** The converter turns the tokens of an expression into its postfix form. *)
Lemma infixToPostfix_tokens (e : expr) :
  wellFormed isNumber e = true ->
  infixToPostfix (tokens e) = Ok (postfix e).
Proof.
  intro H. unfold infixToPostfix.
  rewrite (convLoop_tokens e H) by exact I.
  cbn [bind fst snd app]. rewrite app_nil_r.
  rewrite (drain_stacked _ (stacked_no_paren e H)), output_stacked. reflexivity.
Qed.

(** ** The evaluator on the postfix form of an expression *)

Lemma evalLoop_app (a b : list string) (stack : list float64) :
  evalLoop (a ++ b) stack = (stack' <- evalLoop a stack ;; evalLoop b stack').
Proof.
  revert stack. induction a as [| t a IH]; intro stack; [reflexivity |].
  cbn [app evalLoop]. destruct (evalStep stack t) as [st' | err]; [apply IH | reflexivity].
Qed.

Lemma evalStep_number (stack : list float64) (token : string) :
  isNumber token = true ->
  evalStep stack token = Ok (fst (strconv.ParseFloat token) :: stack).
Proof. intro H. unfold evalStep. rewrite H. reflexivity. Qed.

Lemma evalStep_operator (o : binop) (a b : float64) (stack : list float64) :
  evalStep (b :: a :: stack) (opToken o) = (v <- applyOp o a b ;; Ok (v :: stack)).
Proof.
  destruct o; cbn [opToken applyOp bind]; try reflexivity.
  unfold evalStep. change (isNumber "/") with false. change (isOperator "/") with true.
  change (String.eqb "/" "+") with false. change (String.eqb "/" "-") with false.
  change (String.eqb "/" "*") with false. change (String.eqb "/" "/") with true.
  cbv iota. destruct (f64.eqb b f64.zero); reflexivity.
Qed.

Lemma evalStep_operator_short (o : binop) (stack : list float64) :
  (List.length stack < 2)%nat -> evalStep stack (opToken o) = Err ErrInvalidExpression.
Proof.
  intro H. unfold evalStep. rewrite isNumber_opToken, isOperator_opToken.
  destruct stack as [| b [| a rest]]; [reflexivity | reflexivity | simpl in H; lia].
Qed.

Lemma evalLoop_postfix (e : expr) :
  wellFormed isNumber e = true ->
  forall rest stack,
  evalLoop (postfix e ++ rest) stack = (v <- eval e ;; evalLoop rest (v :: stack)).
Proof.
  induction e as [lit | e IH | o l IHl r IHr]; cbn [wellFormed];
    intros H rest stack.
  - cbn [postfix eval app evalLoop bind].
    rewrite evalStep_number by exact H. reflexivity.
  - cbn [postfix eval]. apply (IH H).
  - rewrite !andb_true_iff in H. destruct H as [[_ Hl] Hr].
    cbn [postfix eval]. rewrite <- !app_assoc, (IHl Hl).
    destruct (eval l) as [a | err]; [| reflexivity]. cbn [bind].
    rewrite (IHr Hr). destruct (eval r) as [b | err]; [| reflexivity].
    cbn [bind app evalLoop]. rewrite evalStep_operator.
    destruct (applyOp o a b); reflexivity.
Qed.

Lemma evaluatePostfix_postfix (e : expr) :
  wellFormed isNumber e = true -> evaluatePostfix (postfix e) = eval e.
Proof.
  intro H. unfold evaluatePostfix.
  rewrite <- (app_nil_r (postfix e)), (evalLoop_postfix e H).
  destruct (eval e); reflexivity.
Qed.

(** ** The validator on the text of an expression *)

Lemma render_validChars (e : expr) :
  wellFormed integerLiteral e = true -> allChars validChar (render e) = true.
Proof.
  induction e as [lit | e IH | o l IHl r IHr]; cbn [wellFormed render]; intro H.
  - apply (allChars_impl strconv.isDigit); [exact isDigit_validChar |].
    apply integerLiteral_digits, H.
  - cbn [String.append allChars]. rewrite allChars_append, (IH H). reflexivity.
  - rewrite !andb_true_iff in H. destruct H as [[_ Hl] Hr].
    rewrite !allChars_append, (IHl Hl), (IHr Hr). destruct o; reflexivity.
Qed.

Lemma render_nonempty (e : expr) :
  wellFormed integerLiteral e = true -> String.eqb (render e) "" = false.
Proof.
  induction e as [lit | e IH | o l IHl r IHr]; cbn [wellFormed render]; intro H.
  - apply integerLiteral_isNumber, isNumber_nonempty in H.
    destruct lit; [discriminate | reflexivity].
  - reflexivity.
  - rewrite !andb_true_iff in H. destruct H as [[_ Hl] _].
    specialize (IHl Hl). destruct (render l); [discriminate | reflexivity].
Qed.

Lemma validationFails_render (e : expr) (s : string) :
  wellFormed integerLiteral e = true -> stripSpaces s = render e ->
  validationFails s = false.
Proof.
  intros H Hs. rewrite <- validationFails_stripSpaces, Hs.
  assert (Hv : isValidExpression (render e) = true)
    by (rewrite isValidExpression_allChars; apply render_validChars, H).
  unfold validationFails. rewrite Hv, (blank_test_stripSpaces _ Hv).
  rewrite <- Hs, stripSpaces_idem, Hs, (render_nonempty e H). reflexivity.
Qed.

(** The whole pipeline on the text of an expression, spaces put anywhere. *)
Lemma Calc_render (e : expr) (s : string) :
  wellFormed integerLiteral e = true -> stripSpaces s = render e ->
  Calc s = eval e.
Proof.
  intros H Hs. rewrite Calc_stages, (validationFails_render e s H Hs).
  unfold afterValidation.
  rewrite <- tokenize_stripSpaces, Hs, (tokenize_render e H).
  rewrite (infixToPostfix_tokens e (wellFormed_isNumber e H)). cbn [bind].
  apply (evaluatePostfix_postfix e (wellFormed_isNumber e H)).
Qed.

(** ** The float64 range of a literal *)

Section FloatRange.
Local Open Scope Z_scope.

Lemma digits2_pos_size (p : positive) : digits2_pos p = Pos.size p.
Proof. induction p; simpl; congruence. Qed.

Lemma Zdigits2_bound (m k : Z) : 0 <= m -> 0 <= k -> m < 2 ^ k -> Zdigits2 m <= k.
Proof.
  intros Hm Hk H. destruct m as [| p | p]; [simpl; lia | | lia].
  cbn [Zdigits2]. rewrite digits2_pos_size.
  pose proof (Pos.size_le p) as Hle.
  destruct (Z_lt_le_dec k (Zpos (Pos.size p))) as [Hlt | ]; [| assumption].
  exfalso.
  assert (2 ^ Zpos (Pos.size p) <= 2 * Zpos p).
  { rewrite <- Pos2Z.inj_pow. change (2 * Zpos p) with (Zpos p~0). apply Pos2Z.pos_le_pos. exact Hle. }
  assert (2 ^ (k + 1) <= 2 ^ Zpos (Pos.size p)) by (apply Z.pow_le_mono_r; lia).
  rewrite Z.pow_add_r in * by lia. lia.
Qed.

Lemma Zdigits2_lt (m : Z) : 0 <= m -> m < 2 ^ Zdigits2 m.
Proof.
  intros Hm. destruct m as [| p | p]; [reflexivity | | lia].
  cbn [Zdigits2]. rewrite digits2_pos_size, <- Pos2Z.inj_pow. apply Pos2Z.pos_lt_pos, Pos.size_gt.
Qed.

Lemma Zdigits2_nonneg (m : Z) : 0 <= Zdigits2 m.
Proof. destruct m; simpl; lia. Qed.

Lemma shr_1_digits (r : shr_record) (k : Z) :
  0 <= shr_m r -> 0 <= k -> shr_m r < 2 ^ (k + 1) ->
  0 <= shr_m (shr_1 r) /\ shr_m (shr_1 r) < 2 ^ k.
Proof.
  destruct r as [m rb sb]. cbn [shr_m]. intros Hm Hk H.
  rewrite Z.pow_add_r in H by lia. change (2 ^ 1) with 2 in H.
  assert (0 < 2 ^ k) by (apply Z.pow_pos_nonneg; lia).
  destruct m as [| [p | p |] | p]; cbn [shr_1 shr_m]; lia.
Qed.

Lemma iter_shr_1_digits (p : positive) :
  forall (r : shr_record) (k : Z),
  0 <= shr_m r -> 0 <= k -> shr_m r < 2 ^ (k + Zpos p) ->
  0 <= shr_m (iter_pos shr_1 p r) /\ shr_m (iter_pos shr_1 p r) < 2 ^ k.
Proof.
  induction p as [p IH | p IH |]; intros r k Hm Hk H; cbn [iter_pos].
  - destruct (shr_1_digits r (k + Zpos p + Zpos p) Hm) as [H1 H2]; [lia | |].
    { replace (k + Zpos p + Zpos p + 1) with (k + Zpos p~1) by lia. exact H. }
    destruct (IH (shr_1 r) (k + Zpos p) H1) as [H3 H4]; [lia | exact H2 |].
    apply IH; assumption.
  - destruct (IH r (k + Zpos p) Hm) as [H3 H4]; [lia | |].
    { replace (k + Zpos p + Zpos p) with (k + Zpos p~0) by lia. exact H. }
    apply IH; assumption.
  - apply shr_1_digits; assumption.
Qed.

Lemma shr_m_of_loc (m : Z) (l : location) : shr_m (shr_record_of_loc m l) = m.
Proof. destruct l as [| []]; reflexivity. Qed.

Lemma fexp_64 (x : Z) : fexp 53 1024 x = Z.max (x - 53) (-1074).
Proof. reflexivity. Qed.

Lemma shr_fexp_bounds (m e : Z) (l : location) :
  0 <= m ->
  0 <= shr_m (fst (shr_fexp 53 1024 m e l))
  /\ snd (shr_fexp 53 1024 m e l) = Z.max e (fexp 53 1024 (Zdigits2 m + e))
  /\ shr_m (fst (shr_fexp 53 1024 m e l))
     < 2 ^ Z.max 0 (Zdigits2 m + e - snd (shr_fexp 53 1024 m e l)).
Proof.
  intro Hm. unfold shr_fexp, shr.
  pose proof (Zdigits2_lt m Hm) as Hd. pose proof (Zdigits2_nonneg m) as Hd0.
  destruct (fexp 53 1024 (Zdigits2 m + e) - e) as [| n | n] eqn:E; cbn [fst snd].
  - rewrite shr_m_of_loc. split; [exact Hm |]. split; [lia |].
    replace (Z.max 0 (Zdigits2 m + e - e)) with (Zdigits2 m) by lia. exact Hd.
  - assert (Hk : 0 <= Z.max 0 (Zdigits2 m - Zpos n)) by lia.
    destruct (iter_shr_1_digits n (shr_record_of_loc m l) _
                ltac:(rewrite shr_m_of_loc; exact Hm) Hk) as [H1 H2].
    + rewrite shr_m_of_loc. eapply Z.lt_le_trans; [exact Hd |].
      apply Z.pow_le_mono_r; lia.
    + split; [exact H1 |]. split; [lia |].
      replace (Zdigits2 m + e - (e + Zpos n)) with (Zdigits2 m - Zpos n) by lia.
      exact H2.
  - rewrite shr_m_of_loc. split; [exact Hm |]. split; [lia |].
    replace (Z.max 0 (Zdigits2 m + e - e)) with (Zdigits2 m) by lia. exact Hd.
Qed.

Lemma round_nearest_even_bounds (m : Z) (l : location) :
  m <= round_nearest_even m l <= m + 1.
Proof.
  destruct l as [| []]; cbn [round_nearest_even]; try lia.
  destruct (Z.even m); lia.
Qed.

(** Rounding cannot overflow below 2^1023. *)
Lemma binary_round_aux_finite (m e : Z) (l : location) (s : bool) :
  0 <= m -> Zdigits2 m + e <= 1023 -> e <= 971 ->
  binary_round_aux 53 1024 false m e l <> S754_infinity s.
Proof.
  intros Hm Hd He. unfold binary_round_aux.
  destruct (shr_fexp_bounds m e l Hm) as [H1 [H2 H3]].
  destruct (shr_fexp 53 1024 m e l) as [r1 e1]. cbn [fst snd] in H1, H2, H3.
  pose proof (round_nearest_even_bounds (shr_m r1) (loc_of_shr_record r1)) as Hr.
  set (m2 := round_nearest_even (shr_m r1) (loc_of_shr_record r1)) in *.
  assert (Hm2 : 0 <= m2) by lia.
  destruct (shr_fexp_bounds m2 e1 loc_Exact Hm2) as [H4 [H5 H6]].
  destruct (shr_fexp 53 1024 m2 e1 loc_Exact) as [r2 e2]. cbn [fst snd] in H4, H5, H6.
  assert (Hd2 : Zdigits2 m2 <= Z.max 0 (Zdigits2 m + e - e1) + 1).
  { apply Zdigits2_bound; [exact Hm2 | lia |].
    rewrite Z.pow_add_r by lia. change (2 ^ 1) with 2. lia. }
  rewrite fexp_64 in H2, H5.
  assert (He2 : e2 <= 971) by lia.
  destruct (shr_m r2) as [| p | p]; try discriminate.
  change (1024 - 53) with 971. destruct (Z.leb_spec e2 971); [discriminate | lia].
Qed.

Lemma div_eucl_1 (m : Z) : Z.div_eucl m 1 = (m, 0).
Proof.
  pose proof (Z.div_1_r m) as Hq. pose proof (Z.mod_1_r m) as Hr.
  unfold Z.div, Z.modulo in Hq, Hr.
  destruct (Z.div_eucl m 1) as [q r]. cbn [fst snd] in Hq, Hr. congruence.
Qed.

(** An integer below 2^1020 rounds to a finite float64. *)
Lemma roundDecimal_finite (m : Z) (s : bool) :
  0 <= m < 2 ^ 1020 -> strconv.roundDecimal m 0 <> S754_infinity s.
Proof.
  intros [Hm Hlt]. destruct m as [| p | p]; [discriminate | | lia].
  unfold strconv.roundDecimal, SFdiv_core_binary.
  change (10 ^ Z.of_nat 0) with 1. change (Zdigits2 1) with 1.
  assert (Hd : Zdigits2 (Zpos p) <= 1020) by (apply Zdigits2_bound; lia).
  pose proof (Zdigits2_lt (Zpos p) Hm) as Hp.
  pose proof (Zdigits2_nonneg (Zpos p)) as Hd0.
  set (d := Zdigits2 (Zpos p)) in *.
  set (e := Z.min (fexp f64.prec f64.emax (d + 0 - (1 + 0))) (0 - 0)).
  assert (He : e <= 0) by (unfold e; lia).
  set (m' := match 0 - 0 - e with
             | 0 => Zpos p
             | Zpos _ => Z.shiftl (Zpos p) (0 - 0 - e)
             | Zneg _ => 0
             end).
  assert (Hm' : 0 <= m' /\ m' < 2 ^ (d - e)).
  { unfold m'. destruct (0 - 0 - e) as [| n | n] eqn:E; [| | lia].
    - replace (d - e) with d by lia. lia.
    - rewrite Z.shiftl_mul_pow2 by lia. rewrite <- E.
      replace (d - e) with (d + (0 - 0 - e)) by lia.
      rewrite Z.pow_add_r by lia.
      assert (0 < 2 ^ (0 - 0 - e)) by (apply Z.pow_pos_nonneg; lia). nia. }
  rewrite div_eucl_1. change (new_location 1 0) with loc_Exact.
  apply binary_round_aux_finite; [lia | | lia].
  assert (Zdigits2 m' <= d - e) by (apply Zdigits2_bound; lia). lia.
Qed.

Lemma isDigit_digitVal (c : ascii) :
  strconv.isDigit c = true ->
  Ascii.eqb c "." = false /\ 0 <= strconv.digitVal c <= 9.
Proof.
  destruct c as [[] [] [] [] [] [] [] []]; try discriminate;
    intros _; (split; [reflexivity | unfold strconv.digitVal; simpl; lia]).
Qed.

Lemma readDecimal_digits (lit : string) :
  allChars strconv.isDigit lit = true ->
  forall d,
  strconv.sawdot d = false -> 0 <= strconv.mant d ->
  strconv.sawdigits d = true \/ (0 < String.length lit)%nat ->
  exists d',
    strconv.readDecimal lit d = Some d'
    /\ strconv.dp d' = strconv.dp d
    /\ 0 <= strconv.mant d'
       < (strconv.mant d + 1) * 10 ^ Z.of_nat (String.length lit).
Proof.
  induction lit as [| c lit IH]; intros H d Hdot Hm Hsaw.
  - destruct Hsaw as [Hsaw | Hlen]; [| simpl in Hlen; lia].
    exists d. cbn [strconv.readDecimal]. rewrite Hsaw.
    split; [reflexivity |]. split; [reflexivity |]. simpl. lia.
  - cbn [allChars] in H. apply andb_true_iff in H. destruct H as [Hc Hl].
    destruct (isDigit_digitVal c Hc) as [Hp Hv].
    cbn [strconv.readDecimal]. rewrite Hp, Hc, Hdot.
    destruct (IH Hl {| strconv.mant := 10 * strconv.mant d + strconv.digitVal c;
                       strconv.sawdigits := true;
                       strconv.sawdot := false;
                       strconv.dp := strconv.dp d |})
      as [d' [Hr [Hdp Hb]]]; cbn [strconv.sawdot strconv.mant strconv.sawdigits];
      [reflexivity | lia | left; reflexivity |].
    exists d'. split; [exact Hr |]. split; [exact Hdp |].
    cbn [strconv.mant strconv.dp] in Hb.
    cbn [String.length]. rewrite Nat2Z.inj_succ, Z.pow_succ_r by lia.
    assert (0 < 10 ^ Z.of_nat (String.length lit)) by (apply Z.pow_pos_nonneg; lia).
    nia.
Qed.

(** Every run of one to 307 digits is a number for [strconv.ParseFloat]. *)
Lemma digit_run_isNumber (lit : string) :
  allChars strconv.isDigit lit = true ->
  (0 < String.length lit <= 307)%nat ->
  isNumber lit = true.
Proof.
  intros H [Hpos Hlen].
  destruct (readDecimal_digits lit H strconv.decimal0 eq_refl)
    as [d [Hr [Hdp Hb]]]; [reflexivity | right; exact Hpos |].
  cbn [strconv.decimal0 strconv.mant strconv.dp] in Hdp, Hb.
  unfold isNumber, strconv.ParseFloat. rewrite Hr, Hdp.
  assert (Hlt : strconv.mant d < 2 ^ 1020).
  { eapply Z.lt_trans; [apply Hb |].
    eapply Z.le_lt_trans; [| exact (eq_refl : (10 ^ 307 ?= 2 ^ 1020) = Lt)].
    rewrite Z.mul_1_l. apply Z.pow_le_mono_r; lia. }
  pose proof (fun s => roundDecimal_finite (strconv.mant d) s (conj (proj1 Hb) Hlt)) as Hfin.
  destruct (strconv.roundDecimal (strconv.mant d) 0) as [s | s | | s m e];
    try reflexivity.
  exfalso. exact (Hfin s eq_refl).
Qed.

End FloatRange.

(** * The properties of the specification *)

(** ** C1: the value of a well-formed expression *)

Lemma applyOp_errors (o : binop) (a b : float64) (err : error) :
  applyOp o a b = Err err -> err = ErrDivisionByZero.
Proof.
  destruct o; cbn [applyOp]; try discriminate.
  destruct (f64.eqb b f64.zero); [congruence | discriminate].
Qed.

(** The evaluation of an expression fails on a zero divisor only. *)
Lemma eval_errors (e : expr) (err : error) :
  eval e = Err err -> err = ErrDivisionByZero.
Proof.
  induction e as [lit | e IH | o l IHl r IHr]; cbn [eval].
  - discriminate.
  - exact IH.
  - destruct (eval l) as [a | e1]; cbn [bind]; [| intro H; apply IHl; congruence].
    destruct (eval r) as [b | e2]; cbn [bind]; [| intro H; apply IHr; congruence].
    apply applyOp_errors.
Qed.

(** C1, as the code has it.  Let [e] be an expression whose literals are
    runs of digits that fit a float64, and [s] any text that is [e] written
    out with spaces put anywhere.  Then [Calc s] is the float64 evaluation
    of [e], operators of one level grouped to the left and [*], [/] before
    [+], [-]: its value, or [ErrDivisionByZero] when a divisor evaluates
    to zero; no other error occurs.  Every run of one to 307 digits is
    such a literal. *)
Theorem Calc_evaluates_expression (e : expr) (s : string) :
  wellFormed integerLiteral e = true ->
  stripSpaces s = render e ->
  Calc s = eval e
  /\ ((exists v, Calc s = Ok v) \/ Calc s = Err ErrDivisionByZero)
  /\ (forall lit,
        allChars strconv.isDigit lit = true ->
        (0 < String.length lit <= 307)%nat ->
        integerLiteral lit = true).
Proof.
  intros H Hs. rewrite (Calc_render e s H Hs). split; [reflexivity |]. split.
  - destruct (eval e) as [v | err] eqn:E.
    + left. exists v. reflexivity.
    + right. rewrite (eval_errors e err E). reflexivity.
  - intros lit Hd Hlen. unfold integerLiteral.
    rewrite Hd, (digit_run_isNumber lit Hd Hlen). reflexivity.
Qed.

Lemma Calc_evaluates_expression_witness :
  Calc "1 + 2*(3 - 4)"
  = eval (Bin Add (Lit "1") (Bin Mul (Lit "2") (Par (Bin Sub (Lit "3") (Lit "4")))))
  /\ ((exists v, Calc "1 + 2*(3 - 4)" = Ok v)
      \/ Calc "1 + 2*(3 - 4)" = Err ErrDivisionByZero)
  /\ (forall lit,
        allChars strconv.isDigit lit = true ->
        (0 < String.length lit <= 307)%nat ->
        integerLiteral lit = true).
Proof.
  apply (Calc_evaluates_expression
           (Bin Add (Lit "1") (Bin Mul (Lit "2") (Par (Bin Sub (Lit "3") (Lit "4")))))
           "1 + 2*(3 - 4)"); reflexivity.
Defined.

(** C1, as the spec has it, fails in three ways.  ["5/0"], ["1.5+2"] and
    the 310 digits of 10^309 are each the text of a well-formed expression
    over non-negative decimals.  [Calc] answers the first with
    [ErrDivisionByZero]; the second, whose value is 3.5, with
    [ErrInvalidExpression], the validator having no decimal point in its
    alphabet; and the third with [ErrInvalidExpression] too, the literal
    being beyond the float64 range and so no number for the converter. *)
Lemma Calc_fails_on_valid_expressions :
  ~ (forall e, wellFormed decimalLiteral e = true ->
               exists v, Calc (render e) = Ok v)
  /\ (wellFormed decimalLiteral (Bin Div (Lit "5") (Lit "0")) = true
      /\ render (Bin Div (Lit "5") (Lit "0")) = "5/0"
      /\ Calc "5/0" = Err ErrDivisionByZero)
  /\ (wellFormed decimalLiteral (Bin Add (Lit "1.5") (Lit "2")) = true
      /\ render (Bin Add (Lit "1.5") (Lit "2")) = "1.5+2"
      /\ eval (Bin Add (Lit "1.5") (Lit "2"))
         = Ok (S754_finite false 7881299347898368 (-51))
      /\ Calc "1.5+2" = Err ErrInvalidExpression)
  /\ (wellFormed decimalLiteral (Lit (String "1" (zeros 309))) = true
      /\ Calc (String "1" (zeros 309)) = Err ErrInvalidExpression).
Proof.
  split; [| repeat split; vm_compute; reflexivity].
  intro H. destruct (H (Bin Div (Lit "5") (Lit "0")) eq_refl) as [v Hv].
  discriminate Hv.
Qed.

(** ** C2: the validator *)

(** C2, as the code has it.  The two guards of [Calc] reject a text exactly
    when it is empty once trimmed or holds a character outside the
    seventeen of the code: the ten digits, the four operators, the two
    parentheses and the space.  A rejected text gives
    [ErrInvalidExpression]; an accepted one goes unchanged to the
    tokenizer. *)
Theorem validation_fails_iff (s : string) :
  (validationFails s = true <->
     strings.TrimSpace s = "" \/ exists c, In c (chars s) /\ ~ In c codeAlphabet)
  /\ (validationFails s = true -> Calc s = Err ErrInvalidExpression)
  /\ (validationFails s = false ->
      Calc s = (postfix <- infixToPostfix (tokenize s) ;; evaluatePostfix postfix)).
Proof.
  split; [| split].
  - unfold validationFails.
    rewrite orb_true_iff, String.eqb_eq, negb_true_iff.
    rewrite isValidExpression_allChars, allChars_false_exists.
    split; (intros [H | [c [Hin Hc]]]; [left; exact H | right; exists c; split; [exact Hin |]]).
    + intro Hal. apply validChar_In in Hal. congruence.
    + destruct (validChar c) eqn:E; [| reflexivity].
      exfalso. apply Hc, validChar_In, E.
  - intro H. rewrite Calc_stages, H. reflexivity.
  - intro H. rewrite Calc_stages, H. reflexivity.
Qed.

(** C2, as the spec has it, fails at ["1.5"]: no character of it is outside
    the spec's alphabet and it is not blank, yet the validator rejects it
    and [Calc] returns [ErrInvalidExpression] without tokenizing. *)
Lemma validation_rejects_decimal_point :
  ~ (forall s, validationFails s = true <->
       strings.TrimSpace s = "" \/ exists c, In c (chars s) /\ ~ In c specAlphabet)
  /\ validationFails "1.5" = true
  /\ Calc "1.5" = Err ErrInvalidExpression.
Proof.
  split; [| split; reflexivity].
  intro H. destruct (proj1 (H "1.5") eq_refl) as [Hb | [c [Hin Hc]]].
  - discriminate Hb.
  - apply Hc. unfold specAlphabet, codeAlphabet.
    cbn in Hin. destruct Hin as [<- | [<- | [<- | []]]]; cbn; tauto.
Qed.

(** ** C9: spaces *)





(** ** C10: a space inside a number *)

(** C10.  Two runs of digits with nothing but spaces between them are one
    token, the digits of both: the space leaves the buffer of the
    tokenizer as it is.  So [Calc "1 2"] is 12. *)
Theorem tokenize_merges_digit_runs (a b : string) (n : nat) :
  allChars strconv.isDigit a = true -> (0 < String.length a)%nat ->
  allChars strconv.isDigit b = true -> (0 < String.length b)%nat ->
  tokenize (String.append a (String.append (spaces n) b)) = [String.append a b]
  /\ Calc "1 2" = Ok (f64.of_Z 12).
Proof.
  intros Ha Hane Hb Hbne. split; [| reflexivity].
  rewrite <- tokenize_stripSpaces, !stripSpaces_append, stripSpaces_spaces.
  rewrite !stripSpaces_notSpace
    by (eapply allChars_impl; [exact isDigit_notSpace | assumption]).
  cbn [String.append]. rewrite tokenize_literal.
  - unfold flush. destruct a; [simpl in Hane; lia | reflexivity].
  - rewrite allChars_append.
    rewrite (allChars_impl _ _ a isDigit_literalChar Ha).
    rewrite (allChars_impl _ _ b isDigit_literalChar Hb). reflexivity.
Qed.

Lemma tokenize_merges_digit_runs_witness :
  tokenize "12   345" = ["12345"] /\ Calc "1 2" = Ok (f64.of_Z 12).
Proof.
  apply (tokenize_merges_digit_runs "12" "345" 3); try reflexivity; simpl; lia.
Defined.

(** ** C3: a malformed literal *)





(** A token that is neither a number nor a symbol stops the converter. *)
Lemma convStep_other (st : convState) (token : string) :
  isNumber token = false -> isSymbol token = false ->
  convStep st token = Err ErrInvalidExpression.
Proof.
  unfold isSymbol. rewrite !orb_false_iff. intros Hn [[Hl Hr] Ho].
  destruct st as [out oper]. unfold convStep. rewrite Hn, Hl, Hr, Ho. reflexivity.
Qed.





(** ** C4 and C5: grouping and precedence *)

(** An incoming operator first sends to the output the operator on top of
    the stack when that one binds at least as tightly. *)
Lemma convStep_operator_pops (out oper : list string) (top : string) (o : binop) :
  (level o <= precedence top)%Z ->
  convStep (out, top :: oper) (opToken o) = convStep (out ++ [top], oper) (opToken o).
Proof.
  intro H. rewrite !convStep_operator. cbn [popHigher].
  destruct (Z.geb_spec (precedence top) (precedence (opToken o)));
    [reflexivity | rewrite precedence_opToken in *; lia].
Qed.

(** And is pushed over it when it binds less tightly. *)
Lemma convStep_operator_stays (out oper : list string) (top : string) (o : binop) :
  (precedence top < level o)%Z ->
  convStep (out, top :: oper) (opToken o) = Ok (out, opToken o :: top :: oper).
Proof.
  intro H. rewrite convStep_operator. cbn [popHigher].
  destruct (Z.geb_spec (precedence top) (precedence (opToken o)));
    [rewrite precedence_opToken in *; lia | reflexivity].
Qed.

(** C4.  An incoming operator pops the stacked operators that bind at
    least as tightly as itself before it is pushed, so in [a o1 b o2 c]
    with [o2] no tighter than [o1] the postfix form is [a b o1 c o2] and
    its value [(a o1 b) o2 c], every operator applied as [x o y] with [y]
    the value pushed last.  [Calc "8-3-2"] is 3, not 7, and [Calc "8/4/2"]
    is 1. *)
Theorem operators_group_left (a b c : string) (o1 o2 : binop) :
  isNumber a = true -> isNumber b = true -> isNumber c = true ->
  (level o2 <= level o1)%Z ->
  (forall out oper top,
     (level o2 <= precedence top)%Z ->
     convStep (out, top :: oper) (opToken o2)
     = convStep (out ++ [top], oper) (opToken o2))
  /\ infixToPostfix [a; opToken o1; b; opToken o2; c]
     = Ok [a; b; opToken o1; c; opToken o2]
  /\ evaluatePostfix [a; b; opToken o1; c; opToken o2]
     = (x <- applyOp o1 (fst (strconv.ParseFloat a)) (fst (strconv.ParseFloat b)) ;;
        applyOp o2 x (fst (strconv.ParseFloat c)))
  /\ (forall x y stack,
        evalStep (y :: x :: stack) (opToken o2)
        = (v <- applyOp o2 x y ;; Ok (v :: stack)))
  /\ Calc "8-3-2" = Ok (f64.of_Z 3)
  /\ f64.of_Z 3 <> f64.of_Z 7
  /\ Calc "8/4/2" = Ok (f64.of_Z 1).
Proof.
  intros Ha Hb Hc Hlev.
  assert (Hwf : wellFormed isNumber (Bin o2 (Bin o1 (Lit a) (Lit b)) (Lit c)) = true).
  { cbn [wellFormed binds]. rewrite Ha, Hb, Hc.
    apply Z.leb_le in Hlev. rewrite Hlev. destruct o1, o2; reflexivity. }
  split; [intros out oper top; apply convStep_operator_pops |].
  split; [exact (infixToPostfix_tokens _ Hwf) |].
  split; [exact (evaluatePostfix_postfix _ Hwf) |].
  split; [intros x y stack; apply evalStep_operator |].
  split; [reflexivity |]. split; [discriminate | reflexivity].
Qed.

Lemma operators_group_left_witness :
  (forall out oper top,
     (level Sub <= precedence top)%Z ->
     convStep (out, top :: oper) (opToken Sub)
     = convStep (out ++ [top], oper) (opToken Sub))
  /\ infixToPostfix ["8"; "-"; "3"; "-"; "2"] = Ok ["8"; "3"; "-"; "2"; "-"]
  /\ evaluatePostfix ["8"; "3"; "-"; "2"; "-"]
     = (x <- applyOp Sub (fst (strconv.ParseFloat "8")) (fst (strconv.ParseFloat "3")) ;;
        applyOp Sub x (fst (strconv.ParseFloat "2")))
  /\ (forall x y stack,
        evalStep (y :: x :: stack) (opToken Sub)
        = (v <- applyOp Sub x y ;; Ok (v :: stack)))
  /\ Calc "8-3-2" = Ok (f64.of_Z 3)
  /\ f64.of_Z 3 <> f64.of_Z 7
  /\ Calc "8/4/2" = Ok (f64.of_Z 1).
Proof.
  apply (operators_group_left "8" "3" "2" Sub Sub); try reflexivity; simpl; lia.
Defined.



(** ** C6: mismatched parentheses *)

Lemma popToParen_empty (oper out : list string) :
  snd (popToParen out oper) = [] <-> ~ In "(" oper.
Proof.
  revert out. induction oper as [| top rest IH]; intro out; cbn [popToParen].
  - cbn [snd In]. tauto.
  - destruct (String.eqb top "(") eqn:E; cbn [negb].
    + apply String.eqb_eq in E. subst top. cbn [snd In].
      split; [discriminate | intro H; exfalso; apply H; left; reflexivity].
    + apply String.eqb_neq in E. rewrite IH. cbn [In].
      split; [intros H [H1 | H2]; [congruence | tauto] | tauto].
Qed.

(** Only a right parenthesis that finds no left one on the stack makes a
    step of the converter fail with [ErrMismatchedParentheses]. *)
Lemma convStep_mismatched (out oper : list string) (token : string) :
  convStep (out, oper) token = Err ErrMismatchedParentheses
  <-> token = ")" /\ ~ In "(" oper.
Proof.
  split.
  - unfold convStep. destruct (isNumber token); [discriminate |].
    destruct (String.eqb token "("); [discriminate |].
    destruct (String.eqb token ")") eqn:E.
    + apply String.eqb_eq in E. intro H. split; [exact E |].
      apply (popToParen_empty oper out).
      destruct (popToParen out oper) as [out' [| top oper']];
        [reflexivity | discriminate].
    + destruct (isOperator token); [| discriminate].
      destruct (popHigher token out oper); discriminate.
  - intros [-> H]. rewrite convStep_rightParen.
    apply (popToParen_empty oper out) in H. rewrite H. reflexivity.
Qed.

Lemma convLoop_Err_inv (toks : list string) (st : convState) (err : error) :
  convLoop toks st = Err err ->
  exists pre token post st',
    toks = pre ++ token :: post
    /\ convLoop pre st = Ok st' /\ convStep st' token = Err err.
Proof.
  revert st. induction toks as [| t toks IH]; intros st H; [discriminate |].
  cbn [convLoop] in H. destruct (convStep st t) as [st1 | e1] eqn:E; cbn [bind] in H.
  - destruct (IH st1 H) as [pre [token [post [st' [-> [Hpre Hstep]]]]]].
    exists (t :: pre), token, post, st'. cbn [app convLoop]. rewrite E. auto.
  - exists [], t, toks, st. cbn [app convLoop]. split; [reflexivity |]. split; congruence.
Qed.

Lemma drain_mismatched (oper out : list string) :
  drain out oper = Err ErrMismatchedParentheses <-> In "(" oper.
Proof.
  revert out. induction oper as [| top rest IH]; intro out; cbn [drain In].
  - split; [discriminate | tauto].
  - destruct (String.eqb top "(") eqn:E.
    + apply String.eqb_eq in E. split; [left; exact E | reflexivity].
    + apply String.eqb_neq in E. rewrite IH. split; [tauto | intros [H | H]; [congruence | exact H]].
Qed.

(** C6.  The converter fails with [ErrMismatchedParentheses] exactly in
    two cases: a [")"] is reached, the tokens before it converted, with no
    ["("] on the operator stack; or all the tokens are converted and a
    ["("] is left on the stack.  [Calc] fails so on [")1+2("], ["(1+2"]
    and ["1+2)"]. *)
Theorem infixToPostfix_mismatched_iff (toks : list string) :
  (infixToPostfix toks = Err ErrMismatchedParentheses <->
     (exists pre post out oper,
        toks = pre ++ ")" :: post
        /\ convLoop pre ([], []) = Ok (out, oper) /\ ~ In "(" oper)
     \/ (exists out oper,
           convLoop toks ([], []) = Ok (out, oper) /\ In "(" oper))
  /\ Calc ")1+2(" = Err ErrMismatchedParentheses
  /\ Calc "(1+2" = Err ErrMismatchedParentheses
  /\ Calc "1+2)" = Err ErrMismatchedParentheses.
Proof.
  split; [| repeat split].
  unfold infixToPostfix. split.
  - intro H. apply bind_Err in H. destruct H as [H | [[out oper] [H1 H2]]].
    + left. destruct (convLoop_Err_inv _ _ _ H)
        as [pre [token [post [[out oper] [-> [Hpre Hstep]]]]]].
      apply convStep_mismatched in Hstep. destruct Hstep as [-> Hno].
      exists pre, post, out, oper. auto.
    + right. exists out, oper. split; [exact H1 |].
      apply (drain_mismatched oper out). exact H2.
  - intros [[pre [post [out [oper [-> [Hpre Hno]]]]]] | [out [oper [Hall Hin]]]].
    + rewrite convLoop_app, Hpre. cbn [bind convLoop].
      rewrite (proj2 (convStep_mismatched out oper ")") (conj eq_refl Hno)).
      reflexivity.
    + rewrite Hall. cbn [bind fst snd]. apply drain_mismatched. exact Hin.
Qed.

(** ** C7: division by zero *)

Lemma eqb_zero (b : float64) : f64.eqb b f64.zero = true <-> f64.is_zero b.
Proof.
  unfold f64.is_zero. destruct b as [s | s | | s m e]; cbn.
  - split; [intros _; exists s; reflexivity | reflexivity].
  - split; [destruct s; discriminate | intros [s' H]; discriminate].
  - split; [discriminate | intros [s' H]; discriminate].
  - split; [destruct s; discriminate | intros [s' H]; discriminate].
Qed.

Lemma evalStep_divide (a b : float64) (stack : list float64) :
  evalStep (b :: a :: stack) "/"
  = if f64.eqb b f64.zero then Err ErrDivisionByZero
    else Ok (f64.div a b :: stack).
Proof.
  rewrite (evalStep_operator Div). cbn [applyOp].
  destruct (f64.eqb b f64.zero); reflexivity.
Qed.

(** C7.  On ["/"] with a zero on top of the value stack, of either sign
    and nothing but a zero, the evaluator returns [ErrDivisionByZero]
    at once; with anything else on top it pushes the quotient.  So does
    the evaluation of a postfix sequence stop at the first such
    division, and [Calc "5/0"] fails with [ErrDivisionByZero]. *)
Theorem division_by_zero_fails (a b : float64) (stack : list float64) :
  (f64.is_zero b -> evalStep (b :: a :: stack) "/" = Err ErrDivisionByZero)
  /\ (~ f64.is_zero b -> evalStep (b :: a :: stack) "/" = Ok (f64.div a b :: stack))
  /\ (forall pre post,
        evalLoop pre [] = Ok (b :: a :: stack) -> f64.is_zero b ->
        evaluatePostfix (pre ++ "/" :: post) = Err ErrDivisionByZero)
  /\ Calc "5/0" = Err ErrDivisionByZero
  /\ Calc "5/(0*(0-1))" = Err ErrDivisionByZero.
Proof.
  assert (H0 : f64.is_zero b -> evalStep (b :: a :: stack) "/" = Err ErrDivisionByZero).
  { intro Hz. rewrite evalStep_divide. apply eqb_zero in Hz. rewrite Hz. reflexivity. }
  split; [exact H0 |]. split; [| split; [| split; reflexivity]].
  - intro Hnz. rewrite evalStep_divide.
    destruct (f64.eqb b f64.zero) eqn:E; [| reflexivity].
    exfalso. apply Hnz, eqb_zero, E.
  - intros pre post Hpre Hz. unfold evaluatePostfix.
    rewrite evalLoop_app, Hpre. cbn [bind evalLoop]. rewrite (H0 Hz). reflexivity.
Qed.

Lemma division_by_zero_fails_witness :
  evaluatePostfix (["5"; "3"; "3"; "-"] ++ "/" :: ["1"; "+"]) = Err ErrDivisionByZero.
Proof.
  apply (proj1 (proj2 (proj2 (division_by_zero_fails (f64.of_Z 5) f64.zero [])))).
  - reflexivity.
  - exists false. reflexivity.
Defined.

(** ** C8: the value stack *)

Lemma isOperator_not_number (token : string) :
  isOperator token = true -> isNumber token = false.
Proof. intro H. destruct (isOperator_inv token H) as [o ->]. apply isNumber_opToken. Qed.

(** C8.  An operator that finds fewer than two values on the stack makes
    the evaluator fail with [ErrInvalidExpression], wherever it stands
    in the postfix sequence; and once all tokens are consumed the result
    is the value on the stack when there is exactly one, and
    [ErrInvalidExpression] when there is none or more than one. *)
Theorem evaluatePostfix_stack_discipline (post : list string) :
  (forall token stack,
     isOperator token = true -> (List.length stack < 2)%nat ->
     evalStep stack token = Err ErrInvalidExpression)
  /\ (forall pre token rest stack,
        post = pre ++ token :: rest ->
        evalLoop pre [] = Ok stack ->
        isOperator token = true -> (List.length stack < 2)%nat ->
        evaluatePostfix post = Err ErrInvalidExpression)
  /\ (forall v, evalLoop post [] = Ok [v] -> evaluatePostfix post = Ok v)
  /\ (evalLoop post [] = Ok [] -> evaluatePostfix post = Err ErrInvalidExpression)
  /\ (forall v w stack,
        evalLoop post [] = Ok (v :: w :: stack) ->
        evaluatePostfix post = Err ErrInvalidExpression)
  /\ (forall v, evaluatePostfix post = Ok v <-> evalLoop post [] = Ok [v])
  /\ evaluatePostfix [] = Err ErrInvalidExpression
  /\ evaluatePostfix ["1"; "+"] = Err ErrInvalidExpression
  /\ evaluatePostfix ["1"; "2"] = Err ErrInvalidExpression
  /\ evaluatePostfix ["1"; "2"; "+"] = Ok (f64.of_Z 3).
Proof.
  assert (Hstep : forall token stack,
            isOperator token = true -> (List.length stack < 2)%nat ->
            evalStep stack token = Err ErrInvalidExpression).
  { intros token stack Hop Hlen. destruct (isOperator_inv token Hop) as [o ->].
    apply evalStep_operator_short, Hlen. }
  split; [exact Hstep |]. split; [| split; [| split; [| split; [| split]]]].
  - intros pre token rest stack -> Hpre Hop Hlen. unfold evaluatePostfix.
    rewrite evalLoop_app, Hpre. cbn [bind evalLoop].
    rewrite (Hstep token stack Hop Hlen). reflexivity.
  - intros v H. unfold evaluatePostfix. rewrite H. reflexivity.
  - intro H. unfold evaluatePostfix. rewrite H. reflexivity.
  - intros v w stack H. unfold evaluatePostfix. rewrite H. reflexivity.
  - intro v. unfold evaluatePostfix. split.
    + destruct (evalLoop post []) as [[| x [| y stack]] | err]; cbn [bind];
        try discriminate. intro H. congruence.
    + intros ->. reflexivity.
  - repeat split.
Qed.

Lemma evaluatePostfix_stack_discipline_witness :
  evaluatePostfix ["7"; "2"; "-"; "*"; "3"] = Err ErrInvalidExpression.
Proof.
  apply (proj1 (proj2 (evaluatePostfix_stack_discipline ["7"; "2"; "-"; "*"; "3"]))
           ["7"; "2"; "-"] "*" ["3"] [f64.of_Z 5]);
    try reflexivity; simpl; lia.
Defined.

(** * Further properties of the code *)

(** ** The tokenizer on any text *)

Lemma char_class (c : ascii) :
  c = " "%char \/ symbolChar c = true \/ literalChar c = true.
Proof.
  unfold literalChar. destruct (Ascii.eqb c " ") eqn:E.
  - left. apply Ascii.eqb_eq, E.
  - destruct (symbolChar c); [right; left | right; right]; reflexivity.
Qed.

Lemma symbolChar_not_space (c : ascii) :
  symbolChar c = true -> Ascii.eqb c " " = false.
Proof. ascii_cases c. Qed.

Lemma joinTokens_app (a b : list string) :
  joinTokens (a ++ b) = String.append (joinTokens a) (joinTokens b).
Proof.
  induction a as [| t a IH]; [reflexivity |].
  cbn [app joinTokens]. rewrite IH, append_assoc. reflexivity.
Qed.

Lemma joinTokens_flush (cur : string) : joinTokens (flush cur) = cur.
Proof.
  unfold flush. destruct cur as [| c cur]; [reflexivity |].
  cbn [String.length Nat.ltb Nat.leb joinTokens]. apply append_nil_r.
Qed.

Lemma tokenizeLoop_join (s : string) (toks : list string) (cur : string) :
  String.append (joinTokens (fst (tokenizeLoop s (toks, cur))))
                (snd (tokenizeLoop s (toks, cur)))
  = String.append (joinTokens toks) (String.append cur (stripSpaces s)).
Proof.
  revert toks cur. induction s as [| c s IH]; intros toks cur.
  - cbn [tokenizeLoop fst snd stripSpaces]. rewrite append_nil_r. reflexivity.
  - cbn [tokenizeLoop stripSpaces].
    destruct (char_class c) as [-> | [Hc | Hc]].
    + rewrite tokenizeStep_space. apply IH.
    + rewrite (symbolChar_not_space c Hc), (tokenizeStep_symbolChar _ _ _ Hc), IH.
      rewrite !joinTokens_app, joinTokens_flush. cbn [joinTokens String.append].
      rewrite !append_assoc. reflexivity.
    + rewrite (tokenizeStep_literalChar _ _ _ Hc), IH.
      unfold literalChar in Hc. apply andb_true_iff in Hc. destruct Hc as [Hsp _].
      apply negb_true_iff in Hsp. rewrite Hsp, append_assoc. reflexivity.
Qed.

Lemma tokenize_flush (s : string) :
  tokenize s = fst (tokenizeLoop s ([], EmptyString))
               ++ flush (snd (tokenizeLoop s ([], EmptyString))).
Proof.
  unfold tokenize, flush.
  destruct (tokenizeLoop s ([], EmptyString)) as [toks cur]. cbn [fst snd].
  destruct (0 <? String.length cur)%nat; [reflexivity | symmetry; apply app_nil_r].
Qed.


Lemma length_append (a b : string) :
  String.length (String.append a b) = (String.length a + String.length b)%nat.
Proof. induction a as [| c a IH]; cbn [String.append String.length]; [| rewrite IH]; reflexivity. Qed.

Lemma joinTokens_length (toks : list string) (t : string) :
  In t toks -> (String.length t <= String.length (joinTokens toks))%nat.
Proof.
  induction toks as [| x toks IH]; [intros [] |].
  cbn [joinTokens]. rewrite length_append. intros [-> | H]; [lia |].
  specialize (IH H). lia.
Qed.

Lemma stripSpaces_length (s : string) :
  (String.length (stripSpaces s) <= String.length s)%nat.
Proof.
  induction s as [| c s IH]; [reflexivity |].
  cbn [stripSpaces]. destruct (Ascii.eqb c " "); cbn [String.length]; lia.
Qed.

(** No token is longer than the text. *)
Lemma tokenize_token_length (s t : string) :
  In t (tokenize s) -> (String.length t <= String.length s)%nat.
Proof.
  intro Hin. apply joinTokens_length in Hin.
  rewrite tokenize_flush, joinTokens_app, joinTokens_flush in Hin.
  rewrite (tokenizeLoop_join s [] EmptyString) in Hin. cbn [joinTokens String.append] in Hin.
  pose proof (stripSpaces_length s). lia.
Qed.

Lemma allChars_snoc (p : ascii -> bool) (s : string) (c : ascii) :
  allChars p (String.append s (String c EmptyString)) = allChars p s && p c.
Proof. rewrite allChars_append. cbn [allChars]. rewrite andb_true_r. reflexivity. Qed.

Lemma flush_Forall (P : string -> Prop) (cur : string) :
  ((0 < String.length cur)%nat -> P cur) -> Forall P (flush cur).
Proof.
  intro H. unfold flush. destruct (Nat.ltb_spec 0 (String.length cur)).
  - constructor; [auto | constructor].
  - constructor.
Qed.

(** The loop of the tokenizer keeps: every token emitted is one symbol or a
    run, not empty, of characters [p] that are neither a space nor a
    symbol, and the buffer is such a run or empty; as long as the
    characters read that are neither a space nor a symbol satisfy [p]. *)
Lemma tokenizeLoop_shape (p : ascii -> bool) (s : string) :
  (forall c, In c (chars s) -> literalChar c = true -> p c = true) ->
  forall toks cur,
  Forall (fun t => symbolToken t = true
                   \/ ((0 < String.length t)%nat /\ allChars p t = true)) toks ->
  allChars p cur = true ->
  Forall (fun t => symbolToken t = true
                   \/ ((0 < String.length t)%nat /\ allChars p t = true))
         (fst (tokenizeLoop s (toks, cur)))
  /\ allChars p (snd (tokenizeLoop s (toks, cur))) = true.
Proof.
  unfold chars. induction s as [| c s IH]; intros Hp toks cur Ht Hc.
  - split; assumption.
  - cbn [tokenizeLoop].
    assert (Hp' : forall x, In x (list_ascii_of_string s) -> literalChar x = true -> p x = true)
      by (intros x Hx; apply Hp; right; exact Hx).
    destruct (char_class c) as [-> | [Hs | Hl]].
    + rewrite tokenizeStep_space. apply IH; assumption.
    + rewrite (tokenizeStep_symbolChar _ _ _ Hs). apply IH; [exact Hp' | | reflexivity].
      apply Forall_app. split; [exact Ht |]. apply Forall_app. split.
      * apply flush_Forall. intro Hlen. right. split; assumption.
      * constructor; [left; exact Hs | constructor].
    + rewrite (tokenizeStep_literalChar _ _ _ Hl). apply IH; [exact Hp' | exact Ht |].
      rewrite allChars_snoc, Hc. cbn [andb]. apply Hp; [left; reflexivity | exact Hl].
Qed.

Lemma tokenize_shape (p : ascii -> bool) (s : string) :
  (forall c, In c (chars s) -> literalChar c = true -> p c = true) ->
  Forall (fun t => symbolToken t = true
                   \/ ((0 < String.length t)%nat /\ allChars p t = true))
         (tokenize s).
Proof.
  intro Hp. unfold tokenize.
  destruct (tokenizeLoop_shape p s Hp [] EmptyString) as [Ht Hc];
    [constructor | reflexivity |].
  destruct (tokenizeLoop s ([], EmptyString)) as [toks cur]. cbn [fst snd] in *.
  destruct (Nat.ltb_spec 0 (String.length cur)); [| exact Ht].
  apply Forall_app. split; [exact Ht |].
  constructor; [right; split; assumption | constructor].
Qed.

(** X2.  Whatever the text, a token is never empty: it is one of the six
    symbols, or a run of characters none of which is a space or a symbol. *)
Theorem tokenize_tokens (s : string) :
  Forall (fun t => symbolToken t = true \/ literalToken t = true) (tokenize s).
Proof.
  eapply Forall_impl; [| apply (tokenize_shape literalChar s); auto].
  intros t [H | [Hlen Hc]]; [left; exact H | right].
  unfold literalToken. rewrite Hc, andb_true_r. apply Nat.ltb_lt, Hlen.
Qed.

Lemma valid_literalChar_isDigit (c : ascii) :
  validChar c = true -> literalChar c = true -> strconv.isDigit c = true.
Proof. ascii_cases c. Qed.

(** X3.  On a text that passes [isValidExpression], a token is one of the six
    symbols or a run of digits, not empty. *)
Theorem tokenize_valid_tokens (s : string) :
  isValidExpression s = true ->
  Forall (fun t => symbolToken t = true
                   \/ ((0 < String.length t)%nat
                       /\ allChars strconv.isDigit t = true))
         (tokenize s).
Proof.
  intro Hv. apply tokenize_shape. intros c Hin Hl.
  rewrite isValidExpression_allChars in Hv.
  apply valid_literalChar_isDigit; [| exact Hl].
  exact (proj1 (allChars_forall validChar s) Hv c Hin).
Qed.

Lemma tokenize_valid_tokens_witness :
  Forall (fun t => symbolToken t = true
                   \/ ((0 < String.length t)%nat
                       /\ allChars strconv.isDigit t = true))
         (tokenize "12 *(3+ 4 5)").
Proof. apply tokenize_valid_tokens. reflexivity. Defined.

(** The accumulated tokens are a frame of the loop. *)
Lemma tokenizeLoop_frame (s : string) (toks : list string) (cur : string) :
  tokenizeLoop s (toks, cur)
  = (toks ++ fst (tokenizeLoop s ([], cur)), snd (tokenizeLoop s ([], cur))).
Proof.
  revert toks cur. induction s as [| c s IH]; intros toks cur.
  - cbn [tokenizeLoop fst snd]. rewrite app_nil_r. reflexivity.
  - cbn [tokenizeLoop].
    destruct (char_class c) as [-> | [Hs | Hl]].
    + rewrite !tokenizeStep_space. apply IH.
    + rewrite !(tokenizeStep_symbolChar _ _ _ Hs).
      rewrite IH, (IH ([] ++ _)). cbn [fst snd app]. rewrite <- app_assoc. reflexivity.
    + rewrite !(tokenizeStep_literalChar _ _ _ Hl). apply IH.
Qed.

(** X4.  A symbol cuts the text in two for the tokenizer: the tokens of the
    whole are the tokens of what precedes, the symbol, and the tokens of
    what follows. *)
Theorem tokenize_symbol (a b : string) (c : ascii) :
  symbolChar c = true ->
  tokenize (String.append a (String c b))
  = tokenize a ++ String c EmptyString :: tokenize b.
Proof.
  intro Hc. rewrite !tokenize_flush, tokenizeLoop_append.
  destruct (tokenizeLoop a ([], EmptyString)) as [ta ca]. cbn [fst snd].
  cbn [tokenizeLoop]. rewrite (tokenizeStep_symbolChar _ _ _ Hc), tokenizeLoop_frame.
  cbn [fst snd]. rewrite <- !app_assoc. reflexivity.
Qed.

Lemma tokenize_symbol_witness :
  tokenize (String.append "1 2" (String "*" "(3"))
  = tokenize "1 2" ++ "*" :: tokenize "(3".
Proof. apply tokenize_symbol. reflexivity. Defined.

(** ** The converter on any list of tokens *)

Lemma popToParen_split (oper out : list string) :
  exists pend rest,
    oper = pend ++ rest
    /\ popToParen out oper = (out ++ pend, rest)
    /\ Forall (fun t => String.eqb t "(" = false) pend
    /\ (rest = [] \/ exists r, rest = "(" :: r).
Proof.
  revert out. induction oper as [| top oper IH]; intro out.
  - exists [], []. cbn [popToParen app]. rewrite app_nil_r. auto.
  - cbn [popToParen]. destruct (String.eqb top "(") eqn:E; cbn [negb].
    + apply String.eqb_eq in E. subst top.
      exists [], ("(" :: oper). cbn [app]. rewrite app_nil_r.
      repeat split; [constructor | right; exists oper; reflexivity].
    + destruct (IH (out ++ [top])) as [pend [rest [H1 [H2 [H3 H4]]]]].
      exists (top :: pend), rest. rewrite H2, <- app_assoc. cbn [app].
      repeat split; [congruence | constructor; assumption | exact H4].
Qed.

Lemma popHigher_split (token : string) (oper out : list string) :
  exists pend rest,
    oper = pend ++ rest
    /\ popHigher token out oper = (out ++ pend, rest)
    /\ Forall (fun t => (precedence token <= precedence t)%Z) pend.
Proof.
  revert out. induction oper as [| top oper IH]; intro out.
  - exists [], []. cbn [popHigher app]. rewrite app_nil_r. auto.
  - cbn [popHigher]. destruct (Z.geb_spec (precedence top) (precedence token)).
    + destruct (IH (out ++ [top])) as [pend [rest [H1 [H2 H3]]]].
      exists (top :: pend), rest. rewrite H2, <- app_assoc. cbn [app].
      repeat split; [congruence | constructor; assumption].
    + exists [], (top :: oper). cbn [app]. rewrite app_nil_r. auto.
Qed.

Lemma isOperator_precedence (token : string) :
  isOperator token = true -> (1 <= precedence token)%Z.
Proof.
  intro H. destruct (isOperator_inv token H) as [o ->].
  rewrite precedence_opToken. destruct o; simpl; lia.
Qed.

Lemma isSymbol_not_number (t : string) : isSymbol t = true -> isNumber t = false.
Proof.
  unfold isSymbol. rewrite !orb_true_iff, !String.eqb_eq.
  intros [[-> | ->] | H]; [reflexivity | reflexivity | apply isOperator_not_number, H].
Qed.

Lemma isOperator_not_paren (t : string) :
  isOperator t = true -> String.eqb t "(" = false /\ String.eqb t ")" = false.
Proof. intro H. destruct (isOperator_inv t H) as [[] ->]; split; reflexivity. Qed.

Lemma noLeft_not_In (pend : list string) :
  Forall (fun x => String.eqb x "(" = false) pend -> ~ In "(" pend.
Proof.
  intros H Hin. rewrite Forall_forall in H. specialize (H _ Hin). discriminate H.
Qed.

Lemma convStep_spec (out oper : list string) (t : string) :
  convStepSpec out oper t (convStep (out, oper) t).
Proof.
  destruct (isNumber t) eqn:En.
  - rewrite (convStep_number _ _ _ En). apply stepNumber, En.
  - destruct (String.eqb t "(") eqn:El.
    { apply String.eqb_eq in El. subst t. rewrite convStep_leftParen.
      apply stepLeft. reflexivity. }
    destruct (String.eqb t ")") eqn:Er.
    { apply String.eqb_eq in Er. subst t. rewrite convStep_rightParen.
      destruct (popToParen_split oper out) as [pend [rest [H1 [H2 [H3 H4]]]]].
      rewrite H2. cbn [fst snd]. destruct H4 as [-> | [r ->]].
      - apply stepRightFails; [reflexivity |]. subst oper. rewrite app_nil_r.
        apply noLeft_not_In, H3.
      - apply (stepRight out oper ")" pend r); auto. }
    destruct (isOperator t) eqn:Eo.
    + destruct (isOperator_inv t Eo) as [o ->]. rewrite convStep_operator.
      destruct (popHigher_split (opToken o) oper out) as [pend [rest [H1 [H2 H3]]]].
      rewrite H2. cbn [fst snd]. apply (stepOperator out oper (opToken o) pend rest); auto.
      eapply Forall_impl; [| exact H3]. intros x Hx.
      destruct (String.eqb x "(") eqn:E; [| reflexivity].
      apply String.eqb_eq in E. subst x. change (precedence "(") with 0%Z in Hx.
      pose proof (isOperator_precedence _ Eo). lia.
    + rewrite convStep_other.
      * apply stepUnknown. unfold knownToken, isSymbol. rewrite En, El, Er, Eo. reflexivity.
      * exact En.
      * unfold isSymbol. rewrite El, Er, Eo. reflexivity.
Qed.

(** *** Which lists of tokens the converter accepts *)

Lemma count_occ_paren_app (pend rest : list string) :
  Forall (fun x => String.eqb x "(" = false) pend ->
  count_occ string_dec (pend ++ rest) "(" = count_occ string_dec rest "(".
Proof.
  intro H. rewrite count_occ_app.
  rewrite (proj1 (count_occ_not_In string_dec pend "(") (noLeft_not_In pend H)).
  reflexivity.
Qed.

Lemma knownToken_number (t : string) : isNumber t = true -> knownToken t = true.
Proof. intro H. unfold knownToken. rewrite H. reflexivity. Qed.

Lemma knownToken_operator (t : string) : isOperator t = true -> knownToken t = true.
Proof. intro H. unfold knownToken, isSymbol. rewrite H, !orb_true_r. reflexivity. Qed.

Lemma isNumber_not_paren (t : string) :
  isNumber t = true -> String.eqb t "(" = false /\ String.eqb t ")" = false.
Proof.
  intro H. split.
  - destruct (String.eqb t "(") eqn:E; [| reflexivity].
    apply String.eqb_eq in E. subst t. discriminate H.
  - destruct (String.eqb t ")") eqn:E; [| reflexivity].
    apply String.eqb_eq in E. subst t. discriminate H.
Qed.

(** The number of left parentheses on the stack is the nesting depth; the
    loop goes through exactly when every token is known and the depth
    never goes below zero. *)
Lemma convLoop_depth (toks : list string) :
  forall out oper,
  match convLoop toks (out, oper) with
  | Ok (out', oper') =>
      forallb knownToken toks = true
      /\ parenScan (count_occ string_dec oper "(") toks
         = Some (count_occ string_dec oper' "(")
  | Err _ =>
      forallb knownToken toks = false
      \/ parenScan (count_occ string_dec oper "(") toks = None
  end.
Proof.
  induction toks as [| t toks IH]; intros out oper.
  - cbn [convLoop forallb parenScan]. auto.
  - cbn [convLoop forallb parenScan].
    destruct (convStep_spec out oper t)
      as [Hn | -> | pend rest -> -> Hp | -> Hno | pend rest Ho -> Hp | Hu]; cbn [bind].
    + destruct (isNumber_not_paren t Hn) as [-> ->].
      rewrite (knownToken_number t Hn). cbn [andb]. apply IH.
    + change (knownToken "(") with true. cbn [andb String.eqb Ascii.eqb Bool.eqb].
      specialize (IH out ("(" :: oper)).
      rewrite count_occ_cons_eq in IH by reflexivity. exact IH.
    + change (knownToken ")") with true. cbn [andb String.eqb Ascii.eqb Bool.eqb].
      rewrite (count_occ_paren_app _ _ Hp), count_occ_cons_eq by reflexivity.
      apply IH.
    + right. cbn [String.eqb Ascii.eqb Bool.eqb].
      rewrite (proj1 (count_occ_not_In string_dec oper "(") Hno). reflexivity.
    + destruct (isOperator_not_paren t Ho) as [El Er]. rewrite El, Er.
      rewrite (knownToken_operator t Ho). cbn [andb].
      specialize (IH (out ++ pend) (t :: rest)).
      rewrite count_occ_cons_neq in IH
        by (intro E; subst t; discriminate Ho).
      rewrite (count_occ_paren_app _ _ Hp). exact IH.
    + left. rewrite Hu. reflexivity.
Qed.

Lemma drain_Ok (oper out : list string) :
  ~ In "(" oper -> drain out oper = Ok (out ++ oper).
Proof.
  intro H. apply drain_stacked. apply Forall_forall. intros x Hx.
  destruct (String.eqb x "(") eqn:E; [| reflexivity].
  apply String.eqb_eq in E. subst x. contradiction.
Qed.

Lemma drain_cases (oper out : list string) :
  (~ In "(" oper /\ drain out oper = Ok (out ++ oper))
  \/ (In "(" oper /\ drain out oper = Err ErrMismatchedParentheses).
Proof.
  destruct (in_dec string_dec "(" oper) as [Hin | Hno].
  - right. split; [exact Hin | apply drain_mismatched, Hin].
  - left. split; [exact Hno | apply drain_Ok, Hno].
Qed.

Lemma infixToPostfix_balanced (toks p : list string) :
  infixToPostfix toks = Ok p ->
  forallb knownToken toks = true /\ parenScan 0 toks = Some 0%nat.
Proof.
  unfold infixToPostfix. intro H. apply bind_Ok in H.
  destruct H as [[out oper] [Hloop Hdrain]]. cbn [fst snd] in Hdrain.
  pose proof (convLoop_depth toks [] []) as Hd. rewrite Hloop in Hd.
  cbn [count_occ] in Hd. destruct Hd as [Hk Hd]. split; [exact Hk |].
  destruct (drain_cases oper out) as [[Hno _] | [_ Hd']]; [| congruence].
  apply (count_occ_not_In string_dec) in Hno. rewrite Hno in Hd. exact Hd.
Qed.

(** X5.  The converter succeeds exactly on the lists of numbers, parentheses and
    operators whose parentheses are balanced, whatever the order of the
    numbers and the operators. *)
Theorem infixToPostfix_succeeds_iff (toks : list string) :
  (exists p, infixToPostfix toks = Ok p)
  <-> forallb knownToken toks = true /\ parenScan 0 toks = Some 0%nat.
Proof.
  split; [intros [p Hp]; exact (infixToPostfix_balanced toks p Hp) |].
  intros [Hk Hd]. unfold infixToPostfix.
  pose proof (convLoop_depth toks [] []) as H. cbn [count_occ] in H.
  destruct (convLoop toks ([], [])) as [[out oper] | err]; cbn [bind fst snd].
  - destruct H as [_ Hd']. rewrite Hd in Hd'. injection Hd' as Hd'.
    exists (out ++ oper). apply drain_Ok.
    apply (count_occ_not_In string_dec). congruence.
  - destruct H as [H | H]; congruence.
Qed.

(** *** What the converter makes of the tokens *)

Lemma stackEntry_pend (pend rest : list string) :
  Forall (fun t => stackEntry t = true) (pend ++ rest) ->
  Forall (fun x => String.eqb x "(" = false) pend ->
  Forall (fun t => isOperator t = true) pend
  /\ Forall (fun t => stackEntry t = true) rest.
Proof.
  intros H Hp. apply Forall_app in H. destruct H as [H1 H2]. split; [| exact H2].
  rewrite Forall_forall in *. intros x Hx.
  specialize (H1 x Hx). specialize (Hp x Hx). unfold stackEntry in H1.
  rewrite Hp in H1. exact H1.
Qed.

Lemma filter_isNumber_operators (pend : list string) :
  Forall (fun t => isOperator t = true) pend -> filter isNumber pend = [].
Proof.
  induction 1 as [| t pend Ht _ IH]; [reflexivity |].
  cbn [filter]. rewrite (isOperator_not_number t Ht). exact IH.
Qed.

Lemma filter_notParen_operators (pend : list string) :
  Forall (fun t => isOperator t = true) pend -> filter notParen pend = pend.
Proof.
  induction 1 as [| t pend Ht _ IH]; [reflexivity |].
  cbn [filter]. unfold notParen at 1.
  destruct (isOperator_not_paren t Ht) as [-> ->]. cbn [negb andb]. rewrite IH. reflexivity.
Qed.

Lemma notParen_number (t : string) : isNumber t = true -> notParen t = true.
Proof.
  intro H. unfold notParen. destruct (isNumber_not_paren t H) as [-> ->]. reflexivity.
Qed.

Lemma notParen_operator (t : string) : isOperator t = true -> notParen t = true.
Proof.
  intro H. unfold notParen. destruct (isOperator_not_paren t H) as [-> ->]. reflexivity.
Qed.

(** The loop keeps three things.  The stack holds left parentheses and
    operators only.  The numbers of the output are those it had, then
    those of the tokens, in their order.  And every token other than a
    parenthesis is, as many times as it was read, in the output or on the
    stack. *)
Lemma convLoop_keeps (toks : list string) :
  forall out oper out' oper',
  Forall (fun t => stackEntry t = true) oper ->
  convLoop toks (out, oper) = Ok (out', oper') ->
  Forall (fun t => stackEntry t = true) oper'
  /\ filter isNumber out' = filter isNumber out ++ filter isNumber toks
  /\ (forall x,
        count_occ string_dec out' x + count_occ string_dec (filter notParen oper') x
        = count_occ string_dec out x + count_occ string_dec (filter notParen oper) x
          + count_occ string_dec (filter notParen toks) x)%nat.
Proof.
  induction toks as [| t toks IH]; intros out oper out' oper' Hst H.
  - cbn [convLoop] in H. injection H as <- <-. cbn [filter count_occ].
    rewrite app_nil_r. repeat split; [exact Hst | intro x; lia].
  - cbn [convLoop] in H.
    destruct (convStep_spec out oper t)
      as [Hn | -> | pend rest -> -> Hp | -> Hno | pend rest Ho -> Hp | Hu];
      cbn [bind] in H; try discriminate H.
    + destruct (IH _ _ _ _ Hst H) as [H1 [H2 H3]].
      split; [exact H1 |]. cbn [filter]. rewrite Hn, (notParen_number t Hn).
      split.
      * rewrite H2, filter_app. cbn [filter]. rewrite Hn, <- app_assoc. reflexivity.
      * intro x. rewrite H3, count_occ_app. cbn [count_occ].
        destruct (string_dec t x); lia.
    + assert (Hst' : Forall (fun t => stackEntry t = true) ("(" :: oper))
        by (constructor; [reflexivity | exact Hst]).
      destruct (IH _ _ _ _ Hst' H) as [H1 [H2 H3]].
      split; [exact H1 |]. split; [exact H2 |]. intro x. rewrite H3. reflexivity.
    + destruct (stackEntry_pend _ _ Hst Hp) as [Hops Hrest].
      inversion Hrest as [| ? ? _ Hrest']; subst.
      destruct (IH _ _ _ _ Hrest' H) as [H1 [H2 H3]].
      split; [exact H1 |]. split.
      * rewrite H2, filter_app, (filter_isNumber_operators pend Hops), app_nil_r.
        reflexivity.
      * intro x. rewrite H3, !filter_app, (filter_notParen_operators pend Hops).
        cbn [filter notParen String.eqb Ascii.eqb Bool.eqb negb andb].
        rewrite !count_occ_app. lia.
    + destruct (stackEntry_pend _ _ Hst Hp) as [Hops Hrest].
      assert (Hst' : Forall (fun x => stackEntry x = true) (t :: rest)).
      { constructor; [| exact Hrest]. unfold stackEntry. rewrite Ho. apply orb_true_r. }
      destruct (IH _ _ _ _ Hst' H) as [H1 [H2 H3]].
      split; [exact H1 |]. cbn [filter].
      rewrite (isOperator_not_number t Ho), (notParen_operator t Ho). split.
      * rewrite H2, filter_app, (filter_isNumber_operators pend Hops), app_nil_r.
        reflexivity.
      * intro x. rewrite H3, !filter_app, (filter_notParen_operators pend Hops).
        cbn [filter]. rewrite (notParen_operator t Ho). rewrite !count_occ_app.
        cbn [count_occ]. destruct (string_dec t x); lia.
Qed.

Lemma infixToPostfix_Ok_inv (toks p : list string) :
  infixToPostfix toks = Ok p ->
  exists out oper,
    convLoop toks ([], []) = Ok (out, oper)
    /\ p = out ++ oper
    /\ Forall (fun t => isOperator t = true) oper.
Proof.
  unfold infixToPostfix. intro H. apply bind_Ok in H.
  destruct H as [[out oper] [Hloop Hdrain]]. cbn [fst snd] in Hdrain.
  exists out, oper. split; [exact Hloop |].
  destruct (drain_cases oper out) as [[Hno Hd] | [Hin Hd]]; [| congruence].
  split; [congruence |].
  destruct (convLoop_keeps toks _ _ _ _ (Forall_nil _) Hloop) as [Hst _].
  rewrite Forall_forall in *. intros x Hx. specialize (Hst x Hx).
  unfold stackEntry in Hst. destruct (String.eqb x "(") eqn:E; [| exact Hst].
  apply String.eqb_eq in E. subst x. contradiction.
Qed.

Lemma infixToPostfix_Ok_perm (toks p : list string) :
  infixToPostfix toks = Ok p -> Permutation p (filter notParen toks).
Proof.
  intro H. destruct (infixToPostfix_Ok_inv toks p H) as [out [oper [Hloop [-> Hops]]]].
  destruct (convLoop_keeps toks _ _ _ _ (Forall_nil _) Hloop) as [_ [_ Hc]].
  apply (Permutation_count_occ string_dec). intro x. specialize (Hc x).
  rewrite (filter_notParen_operators oper Hops) in Hc.
  cbn [filter count_occ] in Hc. rewrite count_occ_app. lia.
Qed.

(** X6.  The postfix form holds the tokens other than parentheses, each as
    many times as it was given, and nothing else: numbers and operators. *)
Theorem infixToPostfix_permutation (toks p : list string) :
  infixToPostfix toks = Ok p ->
  Permutation p (filter notParen toks)
  /\ Forall (fun t => isNumber t = true \/ isOperator t = true) p.
Proof.
  intro H. pose proof (infixToPostfix_Ok_perm toks p H) as Hperm.
  split; [exact Hperm |].
  destruct (infixToPostfix_balanced toks p H) as [Hk _].
  rewrite forallb_forall in Hk. apply Forall_forall. intros x Hx.
  apply (Permutation_in _ Hperm), filter_In in Hx. destruct Hx as [Hin Hnp].
  specialize (Hk x Hin). unfold knownToken, isSymbol in Hk. unfold notParen in Hnp.
  destruct (isNumber x); [left; reflexivity | right].
  destruct (String.eqb x "("); [discriminate |].
  destruct (String.eqb x ")"); [discriminate | exact Hk].
Qed.

Lemma infixToPostfix_permutation_witness :
  Permutation ["2"; "3"; "4"; "+"; "*"] (filter notParen ["2"; "*"; "("; "3"; "+"; "4"; ")"])
  /\ Forall (fun t => isNumber t = true \/ isOperator t = true) ["2"; "3"; "4"; "+"; "*"].
Proof.
  apply (infixToPostfix_permutation ["2"; "*"; "("; "3"; "+"; "4"; ")"]). reflexivity.
Defined.

(** X7.  The converter never reorders the numbers. *)
Theorem infixToPostfix_numbers_in_order (toks p : list string) :
  infixToPostfix toks = Ok p -> filter isNumber p = filter isNumber toks.
Proof.
  intro H. destruct (infixToPostfix_Ok_inv toks p H) as [out [oper [Hloop [-> Hops]]]].
  destruct (convLoop_keeps toks _ _ _ _ (Forall_nil _) Hloop) as [_ [Hn _]].
  rewrite filter_app, (filter_isNumber_operators oper Hops), app_nil_r. exact Hn.
Qed.

Lemma infixToPostfix_numbers_in_order_witness :
  filter isNumber ["2"; "3"; "4"; "+"; "*"]
  = filter isNumber ["2"; "*"; "("; "3"; "+"; "4"; ")"].
Proof.
  apply (infixToPostfix_numbers_in_order ["2"; "*"; "("; "3"; "+"; "4"; ")"]). reflexivity.
Defined.

(** *** The errors of the converter *)

Lemma convLoop_errors (toks : list string) (st : convState) (err : error) :
  convLoop toks st = Err err ->
  err = ErrMismatchedParentheses
  \/ (err = ErrInvalidExpression /\ forallb knownToken toks = false).
Proof.
  intro H. destruct (convLoop_Err_inv _ _ _ H)
    as [pre [t [post [[out oper] [-> [_ Hstep]]]]]].
  destruct (convStep_spec out oper t); try discriminate Hstep.
  - left. congruence.
  - right. split; [congruence |].
    rewrite forallb_app. cbn [forallb].
    match goal with Hu : knownToken t = false |- _ => rewrite Hu end.
    apply andb_false_r.
Qed.

Lemma infixToPostfix_errors (toks : list string) (err : error) :
  infixToPostfix toks = Err err ->
  err = ErrMismatchedParentheses
  \/ (err = ErrInvalidExpression /\ forallb knownToken toks = false).
Proof.
  unfold infixToPostfix. intro H. apply bind_Err in H.
  destruct H as [H | [[out oper] [_ H]]]; [exact (convLoop_errors _ _ _ H) |].
  left. cbn [fst snd] in H.
  destruct (drain_cases oper out) as [[_ Hd] | [_ Hd]]; congruence.
Qed.

(** ** The evaluator on any postfix sequence *)

Lemma evalStep_Ok_inv (stack stack' : list float64) (t : string) :
  evalStep stack t = Ok stack' ->
  (isNumber t = true /\ stack' = fst (strconv.ParseFloat t) :: stack)
  \/ (isNumber t = false
      /\ exists o a b rest v,
           t = opToken o /\ stack = b :: a :: rest
           /\ applyOp o a b = Ok v /\ stack' = v :: rest).
Proof.
  destruct (isNumber t) eqn:En.
  - rewrite (evalStep_number _ _ En). intro H. left. split; congruence.
  - intro H. right. split; [reflexivity |].
    destruct (isOperator t) eqn:Eo.
    + destruct (isOperator_inv t Eo) as [o ->].
      destruct stack as [| b [| a rest]];
        try (rewrite evalStep_operator_short in H by (simpl; lia); discriminate H).
      rewrite evalStep_operator in H. apply bind_Ok in H.
      destruct H as [v [Hv Hs]]. exists o, a, b, rest, v.
      repeat split; congruence.
    + unfold evalStep in H. rewrite En, Eo in H. discriminate H.
Qed.

Lemma evalStep_Err_inv (stack : list float64) (t : string) (err : error) :
  evalStep stack t = Err err ->
  err = ErrInvalidExpression \/ err = ErrDivisionByZero.
Proof.
  unfold evalStep. destruct (isNumber t); [discriminate |].
  destruct (isOperator t); [| intro H; left; congruence].
  destruct stack as [| b [| a rest]]; try (intro H; left; congruence).
  destruct (String.eqb t "+"); [discriminate |].
  destruct (String.eqb t "-"); [discriminate |].
  destruct (String.eqb t "*"); [discriminate |].
  destruct (String.eqb t "/"); [| intro H; left; congruence].
  destruct (f64.eqb b f64.zero); [intro H; right; congruence | discriminate].
Qed.

(** A number adds a value to the stack and an operator takes one away. *)
Lemma evalLoop_depth (p : list string) :
  forall stack stack',
  evalLoop p stack = Ok stack' ->
  (List.length stack' + count isOperator p = List.length stack + count isNumber p)%nat
  /\ Forall (fun t => isNumber t = true \/ isOperator t = true) p.
Proof.
  unfold count. induction p as [| t p IH]; intros stack stack' H.
  - cbn [evalLoop] in H. injection H as <-. cbn [filter List.length]. split; [lia | constructor].
  - cbn [evalLoop] in H. apply bind_Ok in H. destruct H as [st1 [Hstep Hrest]].
    destruct (IH _ _ Hrest) as [Hlen Hall]. cbn [filter].
    destruct (evalStep_Ok_inv _ _ _ Hstep)
      as [[Hn ->] | [Hn [o [a [b [rest [v [-> [-> [_ ->]]]]]]]]]].
    + rewrite Hn. replace (isOperator t) with false.
      * cbn [List.length] in *. split; [lia | constructor; [left; exact Hn | exact Hall]].
      * destruct (isOperator t) eqn:Eo; [| reflexivity].
        rewrite (isOperator_not_number t Eo) in Hn. discriminate Hn.
    + rewrite Hn, isOperator_opToken. cbn [List.length] in *.
      split; [lia | constructor; [right; apply isOperator_opToken | exact Hall]].
Qed.

(** X8.  The evaluator gives a value only to a sequence of numbers and
    operators with one number more than it has operators. *)
Theorem evaluatePostfix_counts (p : list string) (v : float64) :
  evaluatePostfix p = Ok v ->
  count isNumber p = S (count isOperator p)
  /\ Forall (fun t => isNumber t = true \/ isOperator t = true) p.
Proof.
  unfold evaluatePostfix. intro H. apply bind_Ok in H.
  destruct H as [stack [Hloop Hv]].
  destruct stack as [| x [| y rest]]; try discriminate Hv.
  destruct (evalLoop_depth p _ _ Hloop) as [Hlen Hall].
  cbn [List.length] in Hlen. split; [lia | exact Hall].
Qed.

Lemma evaluatePostfix_counts_witness :
  count isNumber ["2"; "3"; "4"; "+"; "*"] = S (count isOperator ["2"; "3"; "4"; "+"; "*"])
  /\ Forall (fun t => isNumber t = true \/ isOperator t = true) ["2"; "3"; "4"; "+"; "*"].
Proof.
  apply (evaluatePostfix_counts ["2"; "3"; "4"; "+"; "*"] (f64.of_Z 14)). reflexivity.
Defined.

(** The values below those a sequence works on are left as they are. *)
Lemma evalLoop_frame (p : list string) :
  forall stack stack' base,
  evalLoop p stack = Ok stack' ->
  evalLoop p (stack ++ base) = Ok (stack' ++ base).
Proof.
  induction p as [| t p IH]; intros stack stack' base H.
  - cbn [evalLoop] in *. congruence.
  - cbn [evalLoop] in *. apply bind_Ok in H. destruct H as [st1 [Hstep Hrest]].
    replace (evalStep (stack ++ base) t) with (Ok (A := list float64) (st1 ++ base)).
    + cbn [bind]. apply IH, Hrest.
    + destruct (evalStep_Ok_inv _ _ _ Hstep)
        as [[Hn ->] | [Hn [o [a [b [rest [v [-> [-> [Hv ->]]]]]]]]]].
      * rewrite (evalStep_number _ _ Hn). reflexivity.
      * cbn [app]. rewrite evalStep_operator, Hv. reflexivity.
Qed.

(** X9.  Postfix sequences compose: two sequences that have a value each,
    followed by an operator, have the value of the operator on the two. *)
Theorem evaluatePostfix_compose (p q : list string) (o : binop) (a b : float64) :
  evaluatePostfix p = Ok a -> evaluatePostfix q = Ok b ->
  evaluatePostfix (p ++ q ++ [opToken o]) = applyOp o a b.
Proof.
  unfold evaluatePostfix. intros Hp Hq.
  apply bind_Ok in Hp. destruct Hp as [sp [Hp Hvp]].
  apply bind_Ok in Hq. destruct Hq as [sq [Hq Hvq]].
  destruct sp as [| x [| ? ?]]; try discriminate Hvp. injection Hvp as ->.
  destruct sq as [| y [| ? ?]]; try discriminate Hvq. injection Hvq as ->.
  rewrite evalLoop_app, Hp. cbn [bind].
  pose proof (evalLoop_frame q [] [b] [a] Hq) as Hf. cbn [app] in Hf.
  rewrite evalLoop_app, Hf. cbn [bind app evalLoop].
  rewrite evalStep_operator. destruct (applyOp o a b); reflexivity.
Qed.

Lemma evaluatePostfix_compose_witness :
  evaluatePostfix (["1"; "2"; "+"] ++ ["4"; "2"; "/"] ++ [opToken Mul])
  = applyOp Mul (f64.of_Z 3) (f64.of_Z 2).
Proof. apply evaluatePostfix_compose; reflexivity. Defined.

Lemma evalLoop_errors (p : list string) :
  forall stack err,
  evalLoop p stack = Err err ->
  err = ErrInvalidExpression \/ err = ErrDivisionByZero.
Proof.
  induction p as [| t p IH]; intros stack err H; [discriminate H |].
  cbn [evalLoop] in H. apply bind_Err in H.
  destruct H as [H | [st1 [_ H]]]; [exact (evalStep_Err_inv _ _ _ H) | exact (IH _ _ H)].
Qed.

Lemma evaluatePostfix_errors (p : list string) (err : error) :
  evaluatePostfix p = Err err ->
  err = ErrInvalidExpression \/ err = ErrDivisionByZero.
Proof.
  unfold evaluatePostfix. intro H. apply bind_Err in H.
  destruct H as [H | [stack [_ H]]]; [exact (evalLoop_errors _ _ _ H) |].
  left. destruct stack as [| x [| y rest]]; congruence.
Qed.

(** ** The stage an error of [Calc] comes from *)

(** X10.  [ErrMismatchedParentheses] comes from the converter and from nowhere
    else, and [ErrDivisionByZero] from the evaluator, on the postfix form
    that the converter has produced. *)
Theorem Calc_error_origin (s : string) :
  (Calc s = Err ErrMismatchedParentheses
   <-> validationFails s = false
       /\ infixToPostfix (tokenize s) = Err ErrMismatchedParentheses)
  /\ (Calc s = Err ErrDivisionByZero
      <-> validationFails s = false
          /\ exists p, infixToPostfix (tokenize s) = Ok p
                       /\ evaluatePostfix p = Err ErrDivisionByZero).
Proof.
  rewrite Calc_stages. unfold afterValidation.
  destruct (validationFails s).
  - split; (split; [discriminate | intros [H _]; discriminate H]).
  - destruct (infixToPostfix (tokenize s)) as [p | err] eqn:E; cbn [bind].
    + split; split.
      * intro H. destruct (evaluatePostfix_errors p _ H); discriminate.
      * intros [_ H]. discriminate H.
      * intro H. split; [reflexivity | exists p; auto].
      * intros [_ [q [Hq H]]]. congruence.
    + split; split.
      * intro H. split; [reflexivity | congruence].
      * intros [_ H]. congruence.
      * intro H. injection H as ->.
        destruct (infixToPostfix_errors _ _ E) as [H | [H _]]; discriminate H.
      * intros [_ [q [Hq _]]]. discriminate Hq.
Qed.

(** ** What [Calc] asks of a text *)

Lemma Permutation_filter_length {A : Type} (f : A -> bool) (l l' : list A) :
  Permutation l l' -> List.length (filter f l) = List.length (filter f l').
Proof.
  induction 1 as [| x l l' _ IH | x y l | l l' l'' _ IH1 _ IH2]; cbn [filter].
  - reflexivity.
  - destruct (f x); cbn [List.length]; congruence.
  - destruct (f x), (f y); reflexivity.
  - congruence.
Qed.

Lemma filter_isOperator_notParen (toks : list string) :
  filter isOperator (filter notParen toks) = filter isOperator toks.
Proof.
  induction toks as [| t toks IH]; [reflexivity |].
  cbn [filter]. destruct (notParen t) eqn:E; cbn [filter].
  - rewrite IH. reflexivity.
  - rewrite IH. destruct (isOperator t) eqn:Eo; [| reflexivity].
    rewrite (notParen_operator t Eo) in E. discriminate E.
Qed.

(** X11.  [Calc] gives a value only to a text whose parentheses are balanced and
    that has one number more than it has operators. *)
Theorem Calc_Ok_counts (s : string) (v : float64) :
  Calc s = Ok v ->
  parenScan 0 (tokenize s) = Some 0%nat
  /\ count isNumber (tokenize s) = S (count isOperator (tokenize s)).
Proof.
  rewrite Calc_stages. destruct (validationFails s); [discriminate |].
  unfold afterValidation. intro H. apply bind_Ok in H. destruct H as [p [Hp Hv]].
  split; [exact (proj2 (infixToPostfix_balanced _ p Hp)) |].
  unfold evaluatePostfix in Hv. apply bind_Ok in Hv. destruct Hv as [stack [Hloop Hv]].
  destruct stack as [| x [| y rest]]; try discriminate Hv.
  destruct (evalLoop_depth p _ _ Hloop) as [Hlen _]. cbn [List.length] in Hlen.
  destruct (infixToPostfix_Ok_inv _ p Hp) as [out [oper [Hconv [Hpo Hops]]]].
  destruct (convLoop_keeps _ _ _ _ _ (Forall_nil _) Hconv) as [_ [Hn _]].
  pose proof (Permutation_filter_length isOperator _ _ (infixToPostfix_Ok_perm _ p Hp)) as Ho.
  rewrite filter_isOperator_notParen in Ho.
  assert (Hnum : filter isNumber p = filter isNumber (tokenize s)).
  { rewrite Hpo, filter_app, (filter_isNumber_operators oper Hops), app_nil_r.
    exact Hn. }
  unfold count in *. rewrite Hnum, Ho in Hlen. lia.
Qed.

Lemma Calc_Ok_counts_witness :
  parenScan 0 (tokenize "(1)(2)+") = Some 0%nat
  /\ count isNumber (tokenize "(1)(2)+") = S (count isOperator (tokenize "(1)(2)+")).
Proof. apply (Calc_Ok_counts "(1)(2)+" (f64.of_Z 3)). reflexivity. Defined.

(** *** White space other than the space *)

Lemma other_space_invalid (c : ascii) :
  strings.isSpace c = true -> Ascii.eqb c " " = false -> validChar c = false.
Proof. ascii_cases c. Qed.

(** X12.  A tab, a line feed or any white space other than the space makes
    [Calc] fail wherever it stands, also at the two ends, where
    [strings.TrimSpace] would drop it. *)
Theorem Calc_rejects_other_white_space (s : string) (c : ascii) :
  In c (chars s) -> strings.isSpace c = true -> Ascii.eqb c " " = false ->
  Calc s = Err ErrInvalidExpression.
Proof.
  intros Hin Hsp Hne. rewrite Calc_stages.
  replace (validationFails s) with true; [reflexivity |].
  symmetry. unfold validationFails. rewrite isValidExpression_allChars.
  replace (allChars validChar s) with false; [apply orb_true_r |].
  symmetry. apply allChars_false_exists. exists c.
  split; [exact Hin | apply other_space_invalid; assumption].
Qed.

Lemma Calc_rejects_other_white_space_witness :
  Calc (String.append "1+2" (String "010" EmptyString)) = Err ErrInvalidExpression.
Proof.
  apply (Calc_rejects_other_white_space _ "010"%char); [| reflexivity | reflexivity].
  simpl. tauto.
Defined.

(** *** Texts of at most 307 characters *)

Lemma symbolChar_isSymbol (c : ascii) :
  symbolChar c = true -> isSymbol (String c EmptyString) = true.
Proof. ascii_cases c. Qed.

Lemma symbolToken_isSymbol (t : string) :
  symbolToken t = true -> isSymbol t = true.
Proof.
  destruct t as [| c [| c' t]]; try discriminate. apply symbolChar_isSymbol.
Qed.

(** X13.  On a text of at most 307 characters that passes [isValidExpression],
    every token is known to the converter, which can then fail only with
    [ErrMismatchedParentheses]: its [ErrInvalidExpression] is out of
    reach. *)
Theorem short_valid_text_tokens_known (s : string) :
  isValidExpression s = true -> (String.length s <= 307)%nat ->
  forallb knownToken (tokenize s) = true
  /\ (forall err, infixToPostfix (tokenize s) = Err err ->
                  err = ErrMismatchedParentheses).
Proof.
  intros Hv Hlen.
  assert (Hk : forallb knownToken (tokenize s) = true).
  { apply forallb_forall. intros t Hin.
    assert (Hshape : Forall (fun t => symbolToken t = true
                               \/ ((0 < String.length t)%nat
                                   /\ allChars strconv.isDigit t = true))
                            (tokenize s)).
    { apply tokenize_shape. intros c Hc Hl.
      rewrite isValidExpression_allChars in Hv.
      apply valid_literalChar_isDigit; [| exact Hl].
      exact (proj1 (allChars_forall validChar s) Hv c Hc). }
    rewrite Forall_forall in Hshape. unfold knownToken.
    destruct (Hshape t Hin) as [Hs | [Hpos Hd]].
    - rewrite (symbolToken_isSymbol t Hs). apply orb_true_r.
    - rewrite (digit_run_isNumber t Hd); [reflexivity |].
      split; [exact Hpos |]. pose proof (tokenize_token_length s t Hin). lia. }
  split; [exact Hk |]. intros err H.
  destruct (infixToPostfix_errors _ _ H) as [H1 | [_ H1]]; [exact H1 | congruence].
Qed.

Lemma short_valid_text_tokens_known_witness :
  forallb knownToken (tokenize "12+)3(") = true
  /\ (forall err, infixToPostfix (tokenize "12+)3(") = Err err ->
                  err = ErrMismatchedParentheses).
Proof. apply short_valid_text_tokens_known; [reflexivity | simpl; lia]. Defined.

(** *** Texts that are not infix *)

Lemma validationFails_stripped (s t : string) :
  stripSpaces s = t -> allChars validChar t = true ->
  String.eqb t "" = false -> validationFails s = false.
Proof.
  intros Hs Hv Hne. rewrite <- validationFails_stripSpaces, Hs.
  assert (Hv' : isValidExpression t = true)
    by (rewrite isValidExpression_allChars; exact Hv).
  unfold validationFails. rewrite Hv', (blank_test_stripSpaces _ Hv').
  rewrite <- Hs, stripSpaces_idem, Hs, Hne. reflexivity.
Qed.

Lemma tokenizeLoop_Par (e : expr) (toks : list string) :
  wellFormed integerLiteral e = true ->
  tokenizeLoop (render (Par e)) (toks, EmptyString)
  = (toks ++ tokens (Par e), EmptyString).
Proof.
  intro H. exact (tokenizeLoop_render (Par e) H toks).
Qed.

Lemma convLoop_Par (e : expr) (out : list string) :
  wellFormed isNumber e = true ->
  convLoop (tokens (Par e)) (out, []) = Ok (out ++ postfix e, []).
Proof.
  intro H. exact (convLoop_tokens (Par e) H out [] I).
Qed.

(** X14.  [Calc] takes more than infix text.  Two operands in parentheses
    followed by an operator, [(l)(r)o], have the value of [(l) o (r)]:
    the converter sends numbers straight to the output and looks at
    nothing but precedence and parentheses. *)
Theorem Calc_operator_after_operands (l r : expr) (o : binop) (s : string) :
  wellFormed integerLiteral l = true -> wellFormed integerLiteral r = true ->
  stripSpaces s
  = String.append (render (Par l)) (String.append (render (Par r)) (opToken o)) ->
  Calc s = eval (Bin o (Par l) (Par r)).
Proof.
  intros Hl Hr Hs.
  assert (Hwf : wellFormed isNumber (Bin o (Par l) (Par r)) = true).
  { cbn [wellFormed binds]. rewrite (wellFormed_isNumber l Hl), (wellFormed_isNumber r Hr).
    destruct o; reflexivity. }
  rewrite Calc_stages, (validationFails_stripped s _ Hs).
  - unfold afterValidation. rewrite <- tokenize_stripSpaces, Hs.
    replace (tokenize _) with (tokens (Par l) ++ tokens (Par r) ++ [opToken o]).
    + unfold infixToPostfix.
      rewrite convLoop_app, (convLoop_Par l [] (wellFormed_isNumber l Hl)). cbn [bind].
      rewrite convLoop_app, (convLoop_Par r _ (wellFormed_isNumber r Hr)).
      cbn [bind convLoop]. rewrite convStep_operator. cbn [popHigher fst snd bind drain].
      replace (String.eqb (opToken o) "(") with false by (destruct o; reflexivity).
      cbn [app]. rewrite <- app_assoc.
      exact (evaluatePostfix_postfix _ Hwf).
    + unfold tokenize. rewrite tokenizeLoop_append, (tokenizeLoop_Par l [] Hl).
      rewrite tokenizeLoop_append, (tokenizeLoop_Par r _ Hr).
      destruct o; cbn [opToken tokenizeLoop];
        rewrite tokenizeStep_symbolChar by reflexivity;
        cbn [flush String.length Nat.ltb Nat.leb app];
        rewrite <- !app_assoc; reflexivity.
  - rewrite !allChars_append.
    rewrite (render_validChars (Par l) Hl), (render_validChars (Par r) Hr).
    destruct o; reflexivity.
  - reflexivity.
Qed.

Lemma Calc_operator_after_operands_witness :
  Calc "(1+2) (3) *" = eval (Bin Mul (Par (Bin Add (Lit "1") (Lit "2"))) (Par (Lit "3"))).
Proof.
  apply (Calc_operator_after_operands (Bin Add (Lit "1") (Lit "2")) (Lit "3") Mul);
    reflexivity.
Defined.

(** X15.  A pair of parentheses around a well-formed expression changes
    nothing. *)
Theorem Calc_parentheses (e : expr) (s : string) :
  wellFormed integerLiteral e = true -> stripSpaces s = render e ->
  Calc (String.append "(" (String.append s ")")) = Calc s.
Proof.
  intros H Hs. rewrite (Calc_render e s H Hs).
  apply (Calc_render (Par e)); [exact H |].
  cbn [String.append stripSpaces Ascii.eqb Bool.eqb].
  rewrite stripSpaces_append, Hs. reflexivity.
Qed.

Lemma Calc_parentheses_witness :
  Calc (String.append "(" (String.append "1 + 2*3" ")")) = Calc "1 + 2*3".
Proof.
  apply (Calc_parentheses (Bin Add (Lit "1") (Bin Mul (Lit "2") (Lit "3")))); reflexivity.
Defined.

(** ** The handler *)

(** X16.  The status code of the reply says what happened: 405 for a method
    other than POST, 400 for a body that does not decode, 200 when [Calc]
    gives a value, 422 when it fails with [ErrInvalidExpression] or
    [ErrMismatchedParentheses], and 500 when it fails with
    [ErrDivisionByZero]. *)
Theorem handleCalculate_status (Decode : string -> option Request) (r : httpRequest) :
  (statusCode (handleCalculate Decode r) = 405%nat <-> Method r <> "POST")
  /\ (statusCode (handleCalculate Decode r) = 400%nat
      <-> Method r = "POST" /\ Decode (Body r) = None)
  /\ (statusCode (handleCalculate Decode r) = 200%nat
      <-> Method r = "POST"
          /\ exists req v, Decode (Body r) = Some req /\ Calc (Expression req) = Ok v)
  /\ (statusCode (handleCalculate Decode r) = 422%nat
      <-> Method r = "POST"
          /\ exists req, Decode (Body r) = Some req
               /\ (Calc (Expression req) = Err ErrInvalidExpression
                   \/ Calc (Expression req) = Err ErrMismatchedParentheses))
  /\ (statusCode (handleCalculate Decode r) = 500%nat
      <-> Method r = "POST"
          /\ exists req, Decode (Body r) = Some req
               /\ Calc (Expression req) = Err ErrDivisionByZero).
Proof.
  unfold handleCalculate, http.MethodPost.
  destruct (String.eqb (Method r) "POST") eqn:Em; cbn [negb].
  - apply String.eqb_eq in Em.
    destruct (Decode (Body r)) as [req |] eqn:Ed.
    + destruct (Calc (Expression req)) as [v | []] eqn:Ec; cbn [statusCode];
        unfold http.StatusOK, http.StatusUnprocessableEntity,
          http.StatusInternalServerError;
        repeat match goal with |- _ /\ _ => split end;
        (split;
         [ intro H; try discriminate H; try congruence;
           (split; [exact Em |]); eauto 6
         | intro H; try reflexivity;
           try (destruct H as [_ [req' [v' [H1 H2]]]]; congruence);
           try (destruct H as [_ [req' [H1 [H2 | H2]]]]; congruence);
           try (destruct H as [_ [req' [H1 H2]]]; congruence);
           try (destruct H as [_ H]; discriminate H);
           try (exfalso; congruence) ]).
    + cbn [statusCode]. unfold http.StatusBadRequest.
      repeat match goal with |- _ /\ _ => split end;
        (split;
         [ intro H; try discriminate H; try congruence; auto
         | intro H; try reflexivity;
           try (destruct H as [_ [req' [v' [H1 H2]]]]; congruence);
           try (destruct H as [_ [req' [H1 H2]]]; congruence);
           try (exfalso; congruence) ]).
  - apply String.eqb_neq in Em. cbn [statusCode]. unfold http.StatusMethodNotAllowed.
    repeat match goal with |- _ /\ _ => split end;
      (split; [intro H; try discriminate H; auto | intro H; try reflexivity;
               destruct H as [H _]; contradiction]).
Qed.




